(** * Namespace context providers of liblttng-ust

    A shallow embedding of the six namespace context providers
    (lttng-context-{pid,user,mnt,cgroup,net,ipc}-ns.c) and the properties
    of their cache, size/record/read protocol and registration.

    The five providers whose cache is a thread-local variable are the same
    text up to the name of the namespace; they are embedded once, in a
    section over the namespace, and instantiated under the source's names.
    The pid provider, whose cache is a plain static variable, is embedded
    on its own. *)

From Stdlib Require Import ZArith Lia.
From stdpp Require Import base option gmap strings list pretty.

Local Open Scope Z_scope.

(** ** Platform constants *)

(** What the C implementation fixes per target: the alignment that
    [lttng_alignof(unsigned int)] yields, the width of [size_t], the byte
    order, and the size of the path buffer (lttng-tracer-core.h). *)
Record platform := {
  lttng_alignof_uint : Z;
  size_t_bits : Z;
  big_endian : bool;
  LTTNG_PROC_NS_PATH_MAX : Z;
}.

Definition CHAR_BIT : Z := 8.
Definition sizeof_uint : Z := 4.
Definition UINT_MODULUS : Z := 2 ^ (sizeof_uint * CHAR_BIT).

(** Conversion to [unsigned int]: reduction modulo 2^32. *)
Definition to_uint (z : Z) : Z := z mod UINT_MODULUS.

(** Conversion to [size_t]. *)
Definition to_size_t (pf : platform) (z : Z) : Z := z mod 2 ^ size_t_bits pf.

(** A C object's alignment divides its size, so the alignment of a 4-byte
    integer is 1, 2 or 4; [size_t] has at least 16 bits. *)
Definition platform_ok (pf : platform) : bool :=
  ((lttng_alignof_uint pf =? 1) || (lttng_alignof_uint pf =? 2)
   || (lttng_alignof_uint pf =? 4))
  && (16 <=? size_t_bits pf).

Definition linux_x86_64 : platform :=
  {| lttng_alignof_uint := 1; size_t_bits := 64; big_endian := false;
     LTTNG_PROC_NS_PATH_MAX := 40 |}.

Definition linux_ppc32 : platform :=
  {| lttng_alignof_uint := 4; size_t_bits := 32; big_endian := true;
     LTTNG_PROC_NS_PATH_MAX := 40 |}.

(** ** The operating system seen by a provider *)

(** Kernel identifier of the calling thread, as [gettid()] returns it. *)
Definition tid := Z.

(** The answers of the environment for one call: [os_stat t path] is
    [Some ino] when [stat(path, &sb)] called by thread [t] returns 0 and
    sets [sb.st_ino] to [ino], [None] when it fails; [os_snprintf_fails]
    tells whether [snprintf] reports an output error (a negative result). *)
Record os_env := {
  os_stat : tid -> string -> option Z;
  os_snprintf_fails : bool;
}.

(** ** Namespaces *)

(** The namespaces cached per thread. *)
Inductive tls_ns := user | mnt | cgroup | net | ipc.

(** The segment naming the namespace under /proc. *)
Definition proc_name (ns : tls_ns) : string :=
  match ns with
  | user => "user" | mnt => "mnt" | cgroup => "cgroup"
  | net => "net" | ipc => "ipc"
  end.

Inductive ns_kind := pid | per_thread (ns : tls_ns).

Global Instance tls_ns_eq_dec : EqDecision tls_ns.
Proof. solve_decision. Defined.

Global Instance ns_kind_eq_dec : EqDecision ns_kind.
Proof. solve_decision. Defined.

(** ** Program state *)

(** The static variables of the six files, and the log of the [stat]
    system calls issued so far (oldest first), each with the calling
    thread and the path. A thread-local variable is a map from threads to
    values; a thread that never wrote it reads the initial 0. *)
Record world := {
  cached_pid_ns : Z;
  cached_user_ns : gmap tid Z;
  cached_mnt_ns : gmap tid Z;
  cached_cgroup_ns : gmap tid Z;
  cached_net_ns : gmap tid Z;
  cached_ipc_ns : gmap tid Z;
  syscalls : list (tid * string);
}.

Definition initial_world : world :=
  {| cached_pid_ns := 0; cached_user_ns := ∅; cached_mnt_ns := ∅;
     cached_cgroup_ns := ∅; cached_net_ns := ∅; cached_ipc_ns := ∅;
     syscalls := [] |}.

Definition tls_var (ns : tls_ns) (w : world) : gmap tid Z :=
  match ns with
  | user => cached_user_ns w | mnt => cached_mnt_ns w
  | cgroup => cached_cgroup_ns w | net => cached_net_ns w
  | ipc => cached_ipc_ns w
  end.

Definition set_tls_var (ns : tls_ns) (m : gmap tid Z) (w : world) : world :=
  {| cached_pid_ns := cached_pid_ns w;
     cached_user_ns := if decide (ns = user) then m else cached_user_ns w;
     cached_mnt_ns := if decide (ns = mnt) then m else cached_mnt_ns w;
     cached_cgroup_ns := if decide (ns = cgroup) then m else cached_cgroup_ns w;
     cached_net_ns := if decide (ns = net) then m else cached_net_ns w;
     cached_ipc_ns := if decide (ns = ipc) then m else cached_ipc_ns w;
     syscalls := syscalls w |}.

Definition set_cached_pid_ns (v : Z) (w : world) : world :=
  {| cached_pid_ns := v;
     cached_user_ns := cached_user_ns w; cached_mnt_ns := cached_mnt_ns w;
     cached_cgroup_ns := cached_cgroup_ns w; cached_net_ns := cached_net_ns w;
     cached_ipc_ns := cached_ipc_ns w; syscalls := syscalls w |}.

Definition log_syscall (e : tid * string) (w : world) : world :=
  {| cached_pid_ns := cached_pid_ns w;
     cached_user_ns := cached_user_ns w; cached_mnt_ns := cached_mnt_ns w;
     cached_cgroup_ns := cached_cgroup_ns w; cached_net_ns := cached_net_ns w;
     cached_ipc_ns := cached_ipc_ns w; syscalls := syscalls w ++ [e] |}.

(** The value thread [t] sees in the thread-local cache of [ns]. *)
Definition tls_value (ns : tls_ns) (t : tid) (w : world) : Z :=
  default 0 (tls_var ns w !! t).

(** The cache cell of a kind in the scope of thread [t]: the one
    process-wide variable for pid, the thread's own copy otherwise. *)
Definition cache_value (k : ns_kind) (t : tid) (w : world) : Z :=
  match k with
  | pid => cached_pid_ns w
  | per_thread ns => tls_value ns t w
  end.

(** ** Computations over the state *)

Definition M (A : Type) : Type := world -> A * world.

Global Instance M_ret : MRet M := λ A a w, (a, w).
Global Instance M_bind : MBind M :=
  λ A B f m w, let '(a, w') := m w in f a w'.

(** [stat(path, &sb)] by thread [t]: one system call, logged. *)
Definition stat (os : os_env) (t : tid) (path : string) : M (option Z) :=
  λ w, (os_stat os t path, log_syscall (t, path) w).

(** [snprintf(buf, size, pre "%d" post, d)]: the result of the call and
    the buffer, which holds at most [size - 1] characters. *)
Definition snprintf (os : os_env) (size : Z) (pre : string) (d : Z)
    (post : string) : Z * string :=
  if os_snprintf_fails os then (-1, "")
  else
    let s := pre +:+ pretty d +:+ post in
    (Z.of_nat (String.length s), String.substring 0 (Z.to_nat (size - 1)) s).

(** Read and write of a thread-local [unsigned int] by thread [t]. *)
Definition URCU_TLS_read (ns : tls_ns) (t : tid) : M Z :=
  λ w, (tls_value ns t w, w).

Definition URCU_TLS_write (ns : tls_ns) (t : tid) (v : Z) : M unit :=
  λ w, (tt, set_tls_var ns (<[t := to_uint v]> (tls_var ns w)) w).

Definition read_cached_pid_ns : M Z := λ w, (cached_pid_ns w, w).

Definition write_cached_pid_ns (v : Z) : M unit :=
  λ w, (tt, set_cached_pid_ns (to_uint v) w).

(** ** The ring-buffer write sink *)

(** Modelled from the spec: the write sink handed to [record]
    (struct lttng_ust_lib_ring_buffer_ctx, lttng/ringbuffer-config.h): a
    write cursor and the bytes stored so far, by offset. *)
Record lttng_ust_lib_ring_buffer_ctx := {
  buf_offset : Z;
  buf_data : gmap Z Z;
}.

(** Modelled from the spec: [lib_ring_buffer_align], the padding needed to
    bring [align_drift] to a multiple of [size_of_type]. *)
Definition lib_ring_buffer_align (align_drift size_of_type : Z) : Z :=
  (size_of_type - align_drift mod size_of_type) mod size_of_type.

(** Modelled from the spec: [lib_ring_buffer_align_ctx], which advances the
    cursor of the sink by that padding. *)
Definition lib_ring_buffer_align_ctx (pf : platform)
    (ctx : lttng_ust_lib_ring_buffer_ctx) (alignment : Z)
    : lttng_ust_lib_ring_buffer_ctx :=
  {| buf_offset :=
       to_size_t pf (buf_offset ctx
                     + lib_ring_buffer_align (buf_offset ctx) alignment);
     buf_data := buf_data ctx |}.

(** Bytes [src] stored from offset [off] on. *)
Fixpoint store_bytes (pf : platform) (off : Z) (src : list Z)
    (data : gmap Z Z) : gmap Z Z :=
  match src with
  | [] => data
  | b :: src' => store_bytes pf (off + 1) src' (<[to_size_t pf off := b]> data)
  end.

(** Modelled from the spec: [chan->ops->event_write], the append primitive
    of the sink: it stores the first [len] bytes of [src] at the cursor and
    advances the cursor by [len]. *)
Definition event_write (pf : platform) (ctx : lttng_ust_lib_ring_buffer_ctx)
    (src : list Z) (len : Z) : lttng_ust_lib_ring_buffer_ctx :=
  {| buf_offset := to_size_t pf (buf_offset ctx + len);
     buf_data := store_bytes pf (buf_offset ctx) (take (Z.to_nat len) src)
                   (buf_data ctx) |}.

(** The object representation of an [unsigned int]: its four bytes in the
    byte order of the platform. *)
Definition uint_bytes_le (v : Z) : list Z :=
  [Z.land v 255; Z.land (Z.shiftr v 8) 255;
   Z.land (Z.shiftr v 16) 255; Z.land (Z.shiftr v 24) 255].

Definition uint_bytes (pf : platform) (v : Z) : list Z :=
  if big_endian pf then rev (uint_bytes_le v) else uint_bytes_le v.

(** The [unsigned int] whose object representation is the given bytes. *)
Definition uint_of_bytes_le (bs : list Z) : Z :=
  foldr (λ b acc, b + 256 * acc) 0 bs.

Definition uint_of_bytes (pf : platform) (bs : list Z) : Z :=
  if big_endian pf then uint_of_bytes_le (rev bs) else uint_of_bytes_le bs.

(** The [len] bytes the sink holds from offset [off] on. *)
Fixpoint load_bytes (pf : platform) (off : Z) (len : nat) (data : gmap Z Z)
    : list (option Z) :=
  match len with
  | O => []
  | S n => data !! to_size_t pf off :: load_bytes pf (off + 1) n data
  end.

(** The generic value slot filled by [get_value]. *)
Record lttng_ctx_value := { s64 : Z }.

(** ** The context registry *)

Inductive lttng_abstract_types := atype_integer.
Inductive lttng_string_encodings := lttng_encode_none.

Record lttng_integer_type := {
  size : Z;
  alignment : Z;
  signedness : bool;
  reverse_byte_order : Z;
  base : Z;
  encoding : option lttng_string_encodings;
}.

Record lttng_event_field := {
  name : option string;
  atype : option lttng_abstract_types;
  integer : lttng_integer_type;
}.

(** A slot of the registry: the description of the field and the three
    operations the registry dispatches to. The operations run in the
    calling thread, against the operating system of the moment. *)
Record lttng_ctx_field := {
  event_field : lttng_event_field;
  get_size : option (Z -> M Z);
  record :
    option (os_env -> tid -> lttng_ust_lib_ring_buffer_ctx ->
            M lttng_ust_lib_ring_buffer_ctx);
  get_value : option (os_env -> tid -> M lttng_ctx_value);
}.

(** Modelled from the spec: the registry (struct lttng_ctx,
    lttng-context.c), the ordered list of its slots, and the number of
    change notifications it received. *)
Record lttng_ctx := {
  fields : list lttng_ctx_field;
  nr_updates : nat;
}.

Definition empty_ctx : lttng_ctx := {| fields := []; nr_updates := 0 |}.

(** A slot as the registry hands it out: zeroed. *)
Definition zeroed_field : lttng_ctx_field :=
  {| event_field :=
       {| name := None; atype := None;
          integer := {| size := 0; alignment := 0; signedness := false;
                        reverse_byte_order := 0; base := 0;
                        encoding := None |} |};
     get_size := None; record := None; get_value := None |}.

(** Modelled from the spec: [lttng_append_context] requests a new slot at
    the end of the registry; it yields the position of the slot, or nothing
    when the registry cannot allocate ([mem_ok] is false). *)
Definition lttng_append_context (mem_ok : bool) (ctx : lttng_ctx)
    : option nat * lttng_ctx :=
  if mem_ok then
    (Some (length (fields ctx)),
     {| fields := fields ctx ++ [zeroed_field]; nr_updates := nr_updates ctx |})
  else (None, ctx).

Definition field_named (s : string) (f : lttng_ctx_field) : bool :=
  bool_decide (name (event_field f) = Some s).

(** Modelled from the spec: [lttng_find_context] tells whether the registry
    holds a field of the given name. *)
Definition lttng_find_context (ctx : lttng_ctx) (s : string) : bool :=
  existsb (field_named s) (fields ctx).

(** Modelled from the spec: [lttng_remove_context_field] rolls a slot back,
    taking it out of the registry. *)
Definition lttng_remove_context_field (ctx : lttng_ctx) (field : nat)
    : lttng_ctx :=
  {| fields := delete field (fields ctx); nr_updates := nr_updates ctx |}.

(** Modelled from the spec: [lttng_context_update] notifies the registry
    that its set of fields changed. *)
Definition lttng_context_update (ctx : lttng_ctx) : lttng_ctx :=
  {| fields := fields ctx; nr_updates := S (nr_updates ctx) |}.

(** Assignment to the members of the slot at position [field]. *)
Definition assign_field (ctx : lttng_ctx) (field : nat)
    (f : lttng_ctx_field) : lttng_ctx :=
  {| fields := <[field := f]> (fields ctx); nr_updates := nr_updates ctx |}.

Definition ENOMEM : Z := 12.
Definition EEXIST : Z := 17.

(** Fields named [s] in the registry. *)
Definition count_named (s : string) (ctx : lttng_ctx) : nat :=
  length (filter (λ f, field_named s f = true) (fields ctx)).

(** ** The providers *)

Section Providers.

Context (pf : platform).

(** The type description both kinds of provider install: an unsigned
    integer of the size and alignment of [unsigned int], in native byte
    order, printed in base 10. *)
Definition uint_event_field (s : string) : lttng_event_field :=
  {| name := Some s;
     atype := Some atype_integer;
     integer :=
       {| size := sizeof_uint * CHAR_BIT;
          alignment := lttng_alignof_uint pf * CHAR_BIT;
          signedness := false;
          reverse_byte_order := 0;
          base := 10;
          encoding := Some lttng_encode_none |} |}.

(** *** lttng-context-pid-ns.c *)

Definition get_pid_ns (os : os_env) (t : tid) : M Z :=
  cached ← read_cached_pid_ns;
  (if cached =? 0 then
     sb ← stat os t "/proc/self/ns/pid";
     match sb with
     | Some st_ino => write_cached_pid_ns st_ino
     | None => mret tt
     end
   else mret tt);;
  read_cached_pid_ns.

Definition lttng_context_pid_ns_reset : M unit :=
  write_cached_pid_ns 0.

Definition pid_ns_get_size (offset : Z) : M Z :=
  let size := 0 in
  let size :=
    to_size_t pf
      (size + lib_ring_buffer_align offset (lttng_alignof_uint pf)) in
  let size := to_size_t pf (size + sizeof_uint) in
  mret size.

Definition pid_ns_record (os : os_env) (t : tid)
    (ctx : lttng_ust_lib_ring_buffer_ctx) : M lttng_ust_lib_ring_buffer_ctx :=
  pid_ns ← get_pid_ns os t;
  let ctx := lib_ring_buffer_align_ctx pf ctx (lttng_alignof_uint pf) in
  mret (event_write pf ctx (uint_bytes pf pid_ns) sizeof_uint).

Definition pid_ns_get_value (os : os_env) (t : tid) : M lttng_ctx_value :=
  pid_ns ← get_pid_ns os t;
  mret {| s64 := pid_ns |}.

Definition lttng_add_pid_ns_to_ctx (mem_ok : bool) (ctx : lttng_ctx)
    : Z * lttng_ctx :=
  let '(field, ctx) := lttng_append_context mem_ok ctx in
  match field with
  | None => (- ENOMEM, ctx)
  | Some field =>
      if lttng_find_context ctx "pid_ns" then
        (- EEXIST, lttng_remove_context_field ctx field)
      else
        let ctx :=
          assign_field ctx field
            {| event_field := uint_event_field "pid_ns";
               get_size := Some pid_ns_get_size;
               record := Some pid_ns_record;
               get_value := Some pid_ns_get_value |} in
        (0, lttng_context_update ctx)
  end.

(** *** lttng-context-{user,mnt,cgroup,net,ipc}-ns.c *)

Section PerThread.

Variable ns : tls_ns.

Definition ctx_name : string := proc_name ns +:+ "_ns".

Definition get_tls_ns (os : os_env) (t : tid) : M Z :=
  cached ← URCU_TLS_read ns t;
  (if cached =? 0 then
     (* /proc/thread-self was introduced in kernel v3.17 *)
     sb ← stat os t ("/proc/thread-self/ns/" +:+ proc_name ns);
     match sb with
     | Some st_ino => URCU_TLS_write ns t st_ino
     | None =>
         let '(n, proc_ns_path) :=
           snprintf os (LTTNG_PROC_NS_PATH_MAX pf)
             "/proc/self/task/" t ("/ns/" +:+ proc_name ns) in
         if n <? 0 then mret tt
         else
           sb ← stat os t proc_ns_path;
           match sb with
           | Some st_ino => URCU_TLS_write ns t st_ino
           | None => mret tt
           end
     end
   else mret tt);;
  URCU_TLS_read ns t.

Definition lttng_context_tls_ns_reset (t : tid) : M unit :=
  URCU_TLS_write ns t 0.

Definition tls_ns_get_size (offset : Z) : M Z :=
  let size := 0 in
  let size :=
    to_size_t pf
      (size + lib_ring_buffer_align offset (lttng_alignof_uint pf)) in
  let size := to_size_t pf (size + sizeof_uint) in
  mret size.

Definition tls_ns_record (os : os_env) (t : tid)
    (ctx : lttng_ust_lib_ring_buffer_ctx) : M lttng_ust_lib_ring_buffer_ctx :=
  v ← get_tls_ns os t;
  let ctx := lib_ring_buffer_align_ctx pf ctx (lttng_alignof_uint pf) in
  mret (event_write pf ctx (uint_bytes pf v) sizeof_uint).

Definition tls_ns_get_value (os : os_env) (t : tid) : M lttng_ctx_value :=
  v ← get_tls_ns os t;
  mret {| s64 := v |}.

Definition lttng_add_tls_ns_to_ctx (mem_ok : bool) (ctx : lttng_ctx)
    : Z * lttng_ctx :=
  let '(field, ctx) := lttng_append_context mem_ok ctx in
  match field with
  | None => (- ENOMEM, ctx)
  | Some field =>
      if lttng_find_context ctx ctx_name then
        (- EEXIST, lttng_remove_context_field ctx field)
      else
        let ctx :=
          assign_field ctx field
            {| event_field := uint_event_field ctx_name;
               get_size := Some tls_ns_get_size;
               record := Some tls_ns_record;
               get_value := Some tls_ns_get_value |} in
        (0, lttng_context_update ctx)
  end.

(** Force a read of the thread-local variable; the value is not used. *)
Definition lttng_fixup_tls_ns_tls (t : tid) : M unit :=
  _ ← URCU_TLS_read ns t;
  mret tt.

End PerThread.

(** The five files under their own names. *)
Definition get_user_ns := get_tls_ns user.
Definition lttng_context_user_ns_reset := lttng_context_tls_ns_reset user.
Definition user_ns_get_size := tls_ns_get_size.
Definition user_ns_record := tls_ns_record user.
Definition user_ns_get_value := tls_ns_get_value user.
Definition lttng_add_user_ns_to_ctx := lttng_add_tls_ns_to_ctx user.
Definition lttng_fixup_user_ns_tls := lttng_fixup_tls_ns_tls user.

Definition get_mnt_ns := get_tls_ns mnt.
Definition lttng_context_mnt_ns_reset := lttng_context_tls_ns_reset mnt.
Definition mnt_ns_get_size := tls_ns_get_size.
Definition mnt_ns_record := tls_ns_record mnt.
Definition mnt_ns_get_value := tls_ns_get_value mnt.
Definition lttng_add_mnt_ns_to_ctx := lttng_add_tls_ns_to_ctx mnt.
Definition lttng_fixup_mnt_ns_tls := lttng_fixup_tls_ns_tls mnt.

Definition get_cgroup_ns := get_tls_ns cgroup.
Definition lttng_context_cgroup_ns_reset := lttng_context_tls_ns_reset cgroup.
Definition cgroup_ns_get_size := tls_ns_get_size.
Definition cgroup_ns_record := tls_ns_record cgroup.
Definition cgroup_ns_get_value := tls_ns_get_value cgroup.
Definition lttng_add_cgroup_ns_to_ctx := lttng_add_tls_ns_to_ctx cgroup.
Definition lttng_fixup_cgroup_ns_tls := lttng_fixup_tls_ns_tls cgroup.

Definition get_net_ns := get_tls_ns net.
Definition lttng_context_net_ns_reset := lttng_context_tls_ns_reset net.
Definition net_ns_get_size := tls_ns_get_size.
Definition net_ns_record := tls_ns_record net.
Definition net_ns_get_value := tls_ns_get_value net.
Definition lttng_add_net_ns_to_ctx := lttng_add_tls_ns_to_ctx net.
Definition lttng_fixup_net_ns_tls := lttng_fixup_tls_ns_tls net.

Definition get_ipc_ns := get_tls_ns ipc.
Definition lttng_context_ipc_ns_reset := lttng_context_tls_ns_reset ipc.
Definition ipc_ns_get_size := tls_ns_get_size.
Definition ipc_ns_record := tls_ns_record ipc.
Definition ipc_ns_get_value := tls_ns_get_value ipc.
Definition lttng_add_ipc_ns_to_ctx := lttng_add_tls_ns_to_ctx ipc.
Definition lttng_fixup_ipc_ns_tls := lttng_fixup_tls_ns_tls ipc.

(** *** What each file exposes, by kind *)

(** The operations of the provider of kind [k]: resolve, reset, the three
    operations installed in the registry, registration, and the fixup of
    thread-local storage where the file defines one. *)
Record provider := {
  field_name : string;
  resolve : os_env -> tid -> M Z;
  reset : tid -> M unit;
  compute_size : Z -> M Z;
  record_op :
    os_env -> tid -> lttng_ust_lib_ring_buffer_ctx ->
    M lttng_ust_lib_ring_buffer_ctx;
  read : os_env -> tid -> M lttng_ctx_value;
  register : bool -> lttng_ctx -> Z * lttng_ctx;
  fixup : option (tid -> M unit);
}.

Definition provider_of (k : ns_kind) : provider :=
  match k with
  | pid =>
      {| field_name := "pid_ns";
         resolve := get_pid_ns;
         reset := λ _, lttng_context_pid_ns_reset;
         compute_size := pid_ns_get_size;
         record_op := pid_ns_record;
         read := pid_ns_get_value;
         register := lttng_add_pid_ns_to_ctx;
         fixup := None |}
  | per_thread ns =>
      {| field_name := ctx_name ns;
         resolve := get_tls_ns ns;
         reset := lttng_context_tls_ns_reset ns;
         compute_size := tls_ns_get_size;
         record_op := tls_ns_record ns;
         read := tls_ns_get_value ns;
         register := lttng_add_tls_ns_to_ctx ns;
         fixup := Some (lttng_fixup_tls_ns_tls ns) |}
  end.

End Providers.

(** ** Vocabulary of the properties *)

(** The world with the cache cell of kind [k] in the scope of thread [t]
    set to [v]. *)
Definition set_cache (k : ns_kind) (t : tid) (v : Z) (w : world) : world :=
  match k with
  | pid => set_cached_pid_ns v w
  | per_thread ns => set_tls_var ns (<[t := v]> (tls_var ns w)) w
  end.

(** The world with the system calls [l] added to the log. *)
Definition log_syscalls (l : list (tid * string)) (w : world) : world :=
  {| cached_pid_ns := cached_pid_ns w;
     cached_user_ns := cached_user_ns w; cached_mnt_ns := cached_mnt_ns w;
     cached_cgroup_ns := cached_cgroup_ns w; cached_net_ns := cached_net_ns w;
     cached_ipc_ns := cached_ipc_ns w; syscalls := syscalls w ++ l |}.

(** The path probed first for a kind. *)
Definition primary_path (k : ns_kind) : string :=
  match k with
  | pid => "/proc/self/ns/pid"
  | per_thread ns => "/proc/thread-self/ns/" +:+ proc_name ns
  end.

(** The fallback path of a per-thread kind for thread [t], when its
    construction succeeds. *)
Definition fallback_path (pf : platform) (os : os_env) (ns : tls_ns)
    (t : tid) : option string :=
  let '(n, path) :=
    snprintf os (LTTNG_PROC_NS_PATH_MAX pf)
      "/proc/self/task/" t ("/ns/" +:+ proc_name ns) in
  if n <? 0 then None else Some path.

(** The resolution algorithm in the spec's words: the inode found by the
    primary probe, else, for a per-thread kind whose fallback path could be
    built, by the fallback probe. *)
Definition lookup_identity (pf : platform) (os : os_env) (k : ns_kind)
    (t : tid) : option Z :=
  match os_stat os t (primary_path k) with
  | Some ino => Some ino
  | None =>
      match k with
      | pid => None
      | per_thread ns =>
          match fallback_path pf os ns t with
          | Some path => os_stat os t path
          | None => None
          end
      end
  end.

(** The paths probed by one resolution attempt, in order. *)
Definition probed_paths (pf : platform) (os : os_env) (k : ns_kind)
    (t : tid) : list string :=
  primary_path k ::
  match os_stat os t (primary_path k), k with
  | None, per_thread ns =>
      match fallback_path pf os ns t with
      | Some path => [path]
      | None => []
      end
  | _, _ => []
  end.

(** The sink after the field value [v] was serialized into it: cursor
    aligned, then the four bytes of [v] appended. *)
Definition sink_put (pf : platform) (ctx : lttng_ust_lib_ring_buffer_ctx)
    (v : Z) : lttng_ust_lib_ring_buffer_ctx :=
  event_write pf
    (lib_ring_buffer_align_ctx pf ctx (lttng_alignof_uint pf))
    (uint_bytes pf v) sizeof_uint.

(** The values of type [unsigned int]. *)
Definition is_uint (v : Z) : Prop := 0 <= v < UINT_MODULUS.

Global Instance is_uint_dec v : Decision (is_uint v).
Proof. unfold is_uint. apply _. Defined.

(** Every cache cell holds an [unsigned int], as its C type has it. *)
Definition cells_uint (w : world) : Prop :=
  is_uint (cached_pid_ns w) /\ forall ns t, is_uint (tls_value ns t w).

(** The same, as a test on the variables of the state. *)
Definition tls_var_ok (m : gmap tid Z) : bool :=
  bool_decide (map_Forall (λ _ v, is_uint v) m).

Definition wf_world (w : world) : bool :=
  bool_decide (is_uint (cached_pid_ns w))
  && tls_var_ok (cached_user_ns w) && tls_var_ok (cached_mnt_ns w)
  && tls_var_ok (cached_cgroup_ns w) && tls_var_ok (cached_net_ns w)
  && tls_var_ok (cached_ipc_ns w).

(** Registration of a populated slot [f] under the name [s], the text
    the six [lttng_add_*_ns_to_ctx] functions share. *)
Definition add_named_field (s : string) (f : lttng_ctx_field)
    (mem_ok : bool) (ctx : lttng_ctx) : Z * lttng_ctx :=
  let '(field, ctx) := lttng_append_context mem_ok ctx in
  match field with
  | None => (- ENOMEM, ctx)
  | Some field =>
      if lttng_find_context ctx s then
        (- EEXIST, lttng_remove_context_field ctx field)
      else (0, lttng_context_update (assign_field ctx field f))
  end.

(** The slot a provider installs. *)
Definition installed_field (pf : platform) (k : ns_kind) : lttng_ctx_field :=
  {| event_field := uint_event_field pf (field_name (provider_of pf k));
     get_size := Some (compute_size (provider_of pf k));
     record := Some (record_op (provider_of pf k));
     get_value := Some (read (provider_of pf k)) |}.

(** Sample environments: a kernel that has /proc/thread-self, one that only
    has /proc/self/task/<tid>, and one without namespace files. *)
Definition os_modern : os_env :=
  {| os_stat := λ _ path,
       if String.prefix "/proc/thread-self/ns/" path then Some 4026531840
       else if String.prefix "/proc/self/ns/" path then Some 4026531836
       else None;
     os_snprintf_fails := false |}.

Definition os_legacy : os_env :=
  {| os_stat := λ _ path,
       if String.prefix "/proc/self/task/" path then Some 4026531992
       else None;
     os_snprintf_fails := false |}.

Definition os_no_ns : os_env :=
  {| os_stat := λ _ _, None; os_snprintf_fails := false |}.

(** A kernel whose namespace inodes are multiples of 2^32. *)
Definition os_wide_inodes : os_env :=
  {| os_stat := λ _ _, Some (3 * 2 ^ 32); os_snprintf_fails := false |}.

Definition empty_sink : lttng_ust_lib_ring_buffer_ctx :=
  {| buf_offset := 0; buf_data := ∅ |}.

(** The calls a thread can make into a provider. *)
Inductive op :=
| Resolve (k : ns_kind) (os : os_env) (t : tid)
| Read (k : ns_kind) (os : os_env) (t : tid)
| Record (k : ns_kind) (os : os_env) (t : tid)
    (ctx : lttng_ust_lib_ring_buffer_ctx)
| ComputeSize (k : ns_kind) (offset : Z)
| Fixup (k : ns_kind) (t : tid)
| Reset (k : ns_kind) (t : tid).

(** The state after a call. *)
Definition run_op (pf : platform) (o : op) (w : world) : world :=
  match o with
  | Resolve k os t => snd (resolve (provider_of pf k) os t w)
  | Read k os t => snd (read (provider_of pf k) os t w)
  | Record k os t ctx => snd (record_op (provider_of pf k) os t ctx w)
  | ComputeSize k offset => snd (compute_size (provider_of pf k) offset w)
  | Fixup k t =>
      match fixup (provider_of pf k) with
      | Some f => snd (f t w)
      | None => w
      end
  | Reset k t => snd (reset (provider_of pf k) t w)
  end.

Definition run_ops (pf : platform) (ops : list op) (w : world) : world :=
  foldl (λ w o, run_op pf o w) w ops.

(** Whether a call is a reset of the cache cell of kind [k] that thread [t]
    sees: a reset of pid by any thread, of a per-thread kind by [t]. *)
Definition resets_cell (k : ns_kind) (t : tid) (o : op) : bool :=
  match o with
  | Reset k' t' =>
      bool_decide (k' = k) && (bool_decide (k = pid) || bool_decide (t' = t))
  | _ => false
  end.

(** A sample run: thread 77 resolved its net namespace, then calls of
    several kinds and threads follow, none a reset of that cell. *)
Definition sample_resolved_world : world :=
  run_op linux_x86_64 (Resolve (per_thread net) os_modern 77) initial_world.

Definition sample_ops : list op :=
  [Read (per_thread net) os_no_ns 77; Reset pid 77;
   Reset (per_thread net) 78;
   Record (per_thread net) os_legacy 77 empty_sink;
   ComputeSize (per_thread net) 5; Fixup (per_thread net) 77;
   Resolve (per_thread ipc) os_modern 77; Resolve pid os_modern 78].


(** The two passes of an event commit over the fields of kinds [ks]: the
    sizes are added up from an offset on, each [get_size] being asked at
    the offset reached; then the fields are recorded into the sink in the
    same order. *)
Fixpoint get_size_pass (pf : platform) (ks : list ns_kind) (offset : Z)
    : M Z :=
  match ks with
  | [] => mret offset
  | k :: ks' =>
      sz ← compute_size (provider_of pf k) offset;
      get_size_pass pf ks' (to_size_t pf (offset + sz))
  end.

Fixpoint record_pass (pf : platform) (os : os_env) (t : tid)
    (ks : list ns_kind) (ctx : lttng_ust_lib_ring_buffer_ctx)
    : M lttng_ust_lib_ring_buffer_ctx :=
  match ks with
  | [] => mret ctx
  | k :: ks' =>
      ctx' ← record_op (provider_of pf k) os t ctx;
      record_pass pf os t ks' ctx'
  end.

(** The calls that resolve the value: resolve, get_value and record. *)
Definition accesses (o : op) : bool :=
  match o with
  | Resolve _ _ _ | Read _ _ _ | Record _ _ _ _ => true
  | _ => false
  end.

(** The value a lookup yields once stored in the cache. *)
Definition lookup_value (pf : platform) (os : os_env) (k : ns_kind)
    (t : tid) : Z :=
  match lookup_identity pf os k t with
  | Some ino => to_uint ino
  | None => 0
  end.

(** * Properties *)

(** Unfolds the sequencing of computations. *)
Ltac unfold_M := unfold mbind, M_bind, mret, M_ret.

(** ** Integers *)

Lemma UINT_MODULUS_eq : UINT_MODULUS = 4294967296.
Proof. reflexivity. Qed.

Lemma to_uint_range z : is_uint (to_uint z).
Proof. unfold is_uint, to_uint. rewrite UINT_MODULUS_eq. apply Z.mod_pos_bound. lia. Qed.

Lemma to_uint_id z : is_uint z -> to_uint z = z.
Proof. unfold is_uint, to_uint. intros H. apply Z.mod_small. lia. Qed.

Lemma to_uint_0 : to_uint 0 = 0.
Proof. reflexivity. Qed.

(** ** The state *)

Lemma tls_var_set_same ns m w : tls_var ns (set_tls_var ns m w) = m.
Proof. by destruct ns. Qed.

Lemma tls_var_set_other ns ns' m w :
  ns <> ns' -> tls_var ns' (set_tls_var ns m w) = tls_var ns' w.
Proof. by destruct ns, ns'. Qed.

Lemma cache_value_set_same k t v w : cache_value k t (set_cache k t v w) = v.
Proof.
  destruct k as [|ns]; [done|]. unfold cache_value, set_cache, tls_value.
  by rewrite tls_var_set_same, lookup_insert_eq.
Qed.

(** The pid cell is one variable: a write by any thread is what every
    thread reads. *)
Lemma cache_value_set_pid t t' v w : cache_value pid t' (set_cache pid t v w) = v.
Proof. done. Qed.

(** A write to a cell leaves the cells of the other kinds, and of the other
    threads for a per-thread kind, as they were. *)
Lemma cache_value_set_other k t v k' t' w :
  k <> k' \/ (k <> pid /\ t <> t') ->
  cache_value k' t' (set_cache k t v w) = cache_value k' t' w.
Proof.
  intros H. destruct k as [|ns], k' as [|ns']; try done.
  - destruct H as [H|[H _]]; congruence.
  - unfold cache_value, set_cache, tls_value.
    destruct (decide (ns = ns')) as [->|Hne].
    + rewrite tls_var_set_same. destruct H as [H|[_ H]]; [congruence|].
      by rewrite lookup_insert_ne.
    + by rewrite tls_var_set_other.
Qed.

Lemma tls_value_set_same ns t v w :
  tls_value ns t (set_tls_var ns (<[t := v]> (tls_var ns w)) w) = v.
Proof. apply (cache_value_set_same (per_thread ns)). Qed.

Lemma tls_value_log ns t l w : tls_value ns t (log_syscalls l w) = tls_value ns t w.
Proof. by destruct ns. Qed.

Lemma syscalls_set_cache k t v w : syscalls (set_cache k t v w) = syscalls w.
Proof. by destruct k. Qed.

Lemma cache_value_log k t l w : cache_value k t (log_syscalls l w) = cache_value k t w.
Proof. destruct k as [|ns]; [done|]. by destruct ns. Qed.

Lemma log_syscall_one e w : log_syscall e w = log_syscalls [e] w.
Proof. done. Qed.

Lemma log_syscalls_app l1 l2 w :
  log_syscalls l2 (log_syscalls l1 w) = log_syscalls (l1 ++ l2) w.
Proof. unfold log_syscalls; simpl. by rewrite app_assoc. Qed.

Lemma cells_uint_initial : cells_uint initial_world.
Proof.
  split; [done|]. intros ns t. unfold tls_value.
  destruct ns; simpl; by rewrite lookup_empty.
Qed.

Lemma cells_uint_set_cache k t v w :
  cells_uint w -> is_uint v -> cells_uint (set_cache k t v w).
Proof.
  intros [Hp Ht] Hv. destruct k as [|ns].
  - split; [done|]. intros ns t'. apply (Ht ns t').
  - split; [by destruct ns|]. intros ns' t'.
    destruct (decide (ns = ns' /\ t = t')) as [[-> ->]|Hne].
    + by rewrite (cache_value_set_same (per_thread ns') t' v w : tls_value _ _ _ = _).
    + rewrite (cache_value_set_other (per_thread ns) t v (per_thread ns') t' w
                 : _ -> tls_value _ _ _ = _); [apply Ht|].
      destruct (decide (ns = ns')) as [->|]; [right|left]; naive_solver.
Qed.

Lemma cells_uint_log l w : cells_uint w -> cells_uint (log_syscalls l w).
Proof.
  intros [Hp Ht]. split; [done|]. intros ns t.
  rewrite (cache_value_log (per_thread ns) t l w : tls_value _ _ _ = _).
  apply Ht.
Qed.

Lemma tls_var_ok_spec m :
  tls_var_ok m = true <-> forall t, is_uint (default 0 (m !! t)).
Proof.
  unfold tls_var_ok. rewrite bool_decide_eq_true. split.
  - intros H t. destruct (m !! t) as [v|] eqn:E; simpl; [by apply (H t v)|done].
  - intros H t v E. specialize (H t). by rewrite E in H.
Qed.

Lemma wf_world_spec w : wf_world w = true <-> cells_uint w.
Proof.
  unfold wf_world, cells_uint, tls_value.
  rewrite !andb_true_iff, bool_decide_eq_true, !tls_var_ok_spec. split.
  - intros [[[[[Hp Hu] Hm] Hc] Hn] Hi]. split; [done|]. by intros [] t.
  - intros [Hp H]. split; [split; [split; [split; [split|]|]|]|]; [done|..].
    + apply (H user). + apply (H mnt). + apply (H cgroup).
    + apply (H net). + apply (H ipc).
Qed.

(** ** Resolution *)

Section Resolution.

Context (pf : platform).

(** A hit: the cached value is returned and nothing else happens. *)
Lemma resolve_hit k os t w :
  cache_value k t w <> 0 ->
  resolve (provider_of pf k) os t w = (cache_value k t w, w).
Proof.
  intros H. destruct k as [|ns]; simpl in *.
  - unfold get_pid_ns, read_cached_pid_ns. unfold_M.
    by rewrite (proj2 (Z.eqb_neq _ _) H).
  - unfold get_tls_ns, URCU_TLS_read. unfold_M.
    by rewrite (proj2 (Z.eqb_neq _ _) H).
Qed.

(** A miss: the paths of one attempt are probed, and the inode found, if
    any, is stored as an [unsigned int] and returned. *)
Lemma resolve_miss k os t w :
  cache_value k t w = 0 ->
  resolve (provider_of pf k) os t w =
    let w1 := log_syscalls (map (pair t) (probed_paths pf os k t)) w in
    match lookup_identity pf os k t with
    | Some ino => (to_uint ino, set_cache k t (to_uint ino) w1)
    | None => (0, w1)
    end.
Proof.
  intros H. destruct k as [|ns]; simpl in *.
  - unfold get_pid_ns, read_cached_pid_ns, stat, write_cached_pid_ns,
      lookup_identity, probed_paths. unfold_M. simpl.
    rewrite H; simpl. destruct (os_stat os t "/proc/self/ns/pid"); simpl; [done|].
    by rewrite H.
  - unfold get_tls_ns, URCU_TLS_read, URCU_TLS_write, stat,
      lookup_identity, probed_paths, fallback_path. unfold_M. simpl.
    rewrite H; simpl.
    destruct (os_stat os t _) as [ino|] eqn:E1; simpl.
    { rewrite log_syscall_one.
      by rewrite tls_value_set_same. }
    destruct (snprintf _ _ _ _ _) as [n path]; simpl.
    destruct (n <? 0); simpl.
    { rewrite log_syscall_one.
      by rewrite tls_value_log, H. }
    rewrite !log_syscall_one, log_syscalls_app; simpl.
    destruct (os_stat os t path) as [ino|]; simpl.
    + by rewrite tls_value_set_same.
    + by rewrite tls_value_log, H.
Qed.

End Resolution.

(** ** Alignment and the object representation of the value *)

(** The padding of [lib_ring_buffer_align] is the padding needed: it stays
    below the alignment and brings the offset to a multiple of it. *)
Lemma lib_ring_buffer_align_spec x a :
  0 < a ->
  0 <= lib_ring_buffer_align x a < a /\ (a | x + lib_ring_buffer_align x a).
Proof.
  intros Ha. unfold lib_ring_buffer_align.
  pose proof (Z.mod_pos_bound x a Ha) as Hr.
  pose proof (Z.div_mod x a ltac:(lia)) as Hx.
  destruct (decide (x mod a = 0)) as [E|E].
  - rewrite E, Z.sub_0_r, Z_mod_same_full. split; [lia|].
    exists (x / a). lia.
  - rewrite (Z.mod_small (a - x mod a)) by lia. split; [lia|].
    exists (x / a + 1). lia.
Qed.

(** No smaller padding aligns the offset. *)
Lemma lib_ring_buffer_align_least x a p :
  0 < a -> 0 <= p -> (a | x + p) -> lib_ring_buffer_align x a <= p.
Proof.
  intros Ha Hp [c Hc].
  destruct (lib_ring_buffer_align_spec x a Ha) as [Hb [d Hd]].
  destruct (Z_le_gt_dec (lib_ring_buffer_align x a) p) as [|Hgt]; [done|].
  assert (lib_ring_buffer_align x a - p = (d - c) * a) as Hdiff by lia.
  assert (0 < d - c < 1) by nia. lia.
Qed.

Lemma platform_ok_align pf :
  platform_ok pf = true -> 0 < lttng_alignof_uint pf <= 4.
Proof.
  unfold platform_ok. rewrite andb_true_iff, !orb_true_iff, !Z.eqb_eq. lia.
Qed.

Lemma platform_ok_size_t pf : platform_ok pf = true -> 65536 <= 2 ^ size_t_bits pf.
Proof.
  unfold platform_ok. rewrite andb_true_iff, Z.leb_le. intros [_ H].
  change 65536 with (2 ^ 16). apply Z.pow_le_mono_r; lia.
Qed.

Lemma to_size_t_small pf z :
  platform_ok pf = true -> 0 <= z < 65536 -> to_size_t pf z = z.
Proof.
  intros Hpf Hz. pose proof (platform_ok_size_t pf Hpf).
  unfold to_size_t. apply Z.mod_small. lia.
Qed.

Lemma to_size_t_add_l pf a b : to_size_t pf (to_size_t pf a + b) = to_size_t pf (a + b).
Proof. unfold to_size_t. apply Zplus_mod_idemp_l. Qed.

Lemma uint_bytes_le_length v : length (uint_bytes_le v) = 4%nat.
Proof. done. Qed.

Lemma uint_bytes_length pf v : length (uint_bytes pf v) = 4%nat.
Proof. unfold uint_bytes. by destruct (big_endian pf). Qed.

(** Reading back the four bytes of a value gives the value. *)
Lemma uint_of_bytes_le_bytes v : is_uint v -> uint_of_bytes_le (uint_bytes_le v) = v.
Proof.
  unfold is_uint. rewrite UINT_MODULUS_eq. intros Hv.
  unfold uint_of_bytes_le, uint_bytes_le; simpl.
  change 255 with (Z.ones 8). rewrite !Z.land_ones by lia.
  rewrite !Z.shiftr_div_pow2 by lia.
  change (2 ^ 8) with 256. change (2 ^ 16) with 65536.
  change (2 ^ 24) with 16777216.
  Z.div_mod_to_equations. lia.
Qed.

Lemma uint_of_bytes_bytes pf v : is_uint v -> uint_of_bytes pf (uint_bytes pf v) = v.
Proof.
  intros Hv. unfold uint_of_bytes, uint_bytes.
  destruct (big_endian pf); [rewrite rev_involutive|]; by apply uint_of_bytes_le_bytes.
Qed.

Lemma uint_bytes_are_bytes pf v : Forall (λ b, 0 <= b < 256) (uint_bytes pf v).
Proof.
  assert (forall x, 0 <= Z.land x 255 < 256) as H.
  { intros x. change 255 with (Z.ones 8). rewrite Z.land_ones by lia.
    apply Z.mod_pos_bound. lia. }
  unfold uint_bytes.
  destruct (big_endian pf); [apply Forall_rev|]; repeat constructor; apply H.
Qed.

(** ** The write sink *)

Section Sink.

Context (pf : platform) (Hpf : platform_ok pf = true).

(** Two offsets less than a full turn of [size_t] apart are distinct. *)
Lemma to_size_t_apart off d :
  0 < d < 65536 -> to_size_t pf (off + d) <> to_size_t pf off.
Proof.
  intros Hd E. pose proof (platform_ok_size_t pf Hpf) as HN.
  unfold to_size_t in E.
  assert ((off + d - off) mod 2 ^ size_t_bits pf = 0) as H0.
  { rewrite Zminus_mod, E, Z.sub_diag. apply Z.mod_0_l. lia. }
  replace (off + d - off) with d in H0 by lia.
  rewrite Z.mod_small in H0; lia.
Qed.

Lemma store_bytes_lookup_before off n bs data :
  0 < n -> n + Z.of_nat (length bs) <= 65536 ->
  store_bytes pf (off + n) bs data !! to_size_t pf off = data !! to_size_t pf off.
Proof.
  revert n data. induction bs as [|b bs IH]; intros n data Hn Hlen; [done|].
  simpl in *. replace (off + n + 1) with (off + (n + 1)) by lia.
  rewrite IH by lia. apply lookup_insert_ne, to_size_t_apart. lia.
Qed.

(** The bytes stored are the bytes found. *)
Lemma load_store_bytes off bs data :
  Z.of_nat (length bs) < 65536 ->
  load_bytes pf off (length bs) (store_bytes pf off bs data) = map Some bs.
Proof.
  revert off data. induction bs as [|b bs IH]; intros off data Hlen; [done|].
  simpl in *. rewrite IH by lia. f_equal.
  rewrite (store_bytes_lookup_before off 1) by lia. apply lookup_insert_eq.
Qed.

(** Offsets outside the stored range keep their byte. *)
Lemma store_bytes_lookup_other off bs data o :
  (forall i, 0 <= i < Z.of_nat (length bs) -> o <> to_size_t pf (off + i)) ->
  store_bytes pf off bs data !! o = data !! o.
Proof.
  revert off data. induction bs as [|b bs IH]; intros off data Ho; [done|].
  simpl in *. rewrite IH.
  - apply lookup_insert_ne. specialize (Ho 0). rewrite Z.add_0_r in Ho.
    intros E. apply Ho; [lia|done].
  - intros i Hi. replace (off + 1 + i) with (off + (i + 1)) by lia.
    apply Ho. lia.
Qed.

End Sink.

(** ** Size, record and read *)

Section Protocol.

Context (pf : platform).

(** [get_value] returns what resolution returns, widened. *)
Lemma read_resolve k os t w :
  read (provider_of pf k) os t w =
    let '(v, w') := resolve (provider_of pf k) os t w in ({| s64 := v |}, w').
Proof.
  destruct k as [|ns]; simpl.
  - unfold pid_ns_get_value. unfold_M.
    by destruct (get_pid_ns os t w).
  - unfold tls_ns_get_value. unfold_M.
    by destruct (get_tls_ns pf ns os t w).
Qed.

(** [record] serializes what resolution returns. *)
Lemma record_resolve k os t ctx w :
  record_op (provider_of pf k) os t ctx w =
    let '(v, w') := resolve (provider_of pf k) os t w in (sink_put pf ctx v, w').
Proof.
  destruct k as [|ns]; simpl.
  - unfold pid_ns_record. unfold_M.
    by destruct (get_pid_ns os t w).
  - unfold tls_ns_record. unfold_M.
    by destruct (get_tls_ns pf ns os t w).
Qed.

Lemma compute_size_eq k offset w :
  platform_ok pf = true ->
  compute_size (provider_of pf k) offset w =
    (lib_ring_buffer_align offset (lttng_alignof_uint pf) + sizeof_uint, w).
Proof.
  intros Hpf. pose proof (platform_ok_align pf Hpf) as Ha.
  destruct (lib_ring_buffer_align_spec offset (lttng_alignof_uint pf)) as [Hp _];
    [lia|].
  assert (forall (off : Z) (w : world),
    (let size := 0 in
     let size :=
       to_size_t pf (size + lib_ring_buffer_align off (lttng_alignof_uint pf)) in
     let size := to_size_t pf (size + sizeof_uint) in
     (size, w)) =
    (lib_ring_buffer_align off (lttng_alignof_uint pf) + sizeof_uint, w)) as H.
  { intros off w0. cbv zeta. rewrite Z.add_0_l. unfold sizeof_uint.
    destruct (lib_ring_buffer_align_spec off (lttng_alignof_uint pf)) as [Hq _];
      [lia|].
    rewrite (to_size_t_small pf (lib_ring_buffer_align off _)) by (done || lia).
    by rewrite to_size_t_small by (done || lia). }
  destruct k as [|ns]; apply H.
Qed.

(** The cursor of the sink after a value was put, and what it holds. *)
Lemma sink_put_offset ctx v :
  buf_offset (sink_put pf ctx v) =
    to_size_t pf
      (buf_offset ctx
       + (lib_ring_buffer_align (buf_offset ctx) (lttng_alignof_uint pf)
          + sizeof_uint)).
Proof.
  unfold sink_put, event_write, lib_ring_buffer_align_ctx; simpl.
  rewrite to_size_t_add_l. f_equal. lia.
Qed.

Lemma sink_put_data ctx v :
  buf_data (sink_put pf ctx v) =
    store_bytes pf
      (to_size_t pf
         (buf_offset ctx
          + lib_ring_buffer_align (buf_offset ctx) (lttng_alignof_uint pf)))
      (uint_bytes pf v) (buf_data ctx).
Proof.
  unfold sink_put, event_write, lib_ring_buffer_align_ctx; simpl.
  f_equal. change (Z.to_nat sizeof_uint) with 4%nat.
  apply take_ge. by rewrite uint_bytes_length.
Qed.

End Protocol.

Lemma to_size_t_congr_succ pf off off' :
  to_size_t pf off = to_size_t pf off' ->
  to_size_t pf (off + 1) = to_size_t pf (off' + 1).
Proof.
  unfold to_size_t. intros E.
  by rewrite (Zplus_mod off), (Zplus_mod off'), E.
Qed.

Lemma store_bytes_congr pf off off' bs data :
  to_size_t pf off = to_size_t pf off' ->
  store_bytes pf off bs data = store_bytes pf off' bs data.
Proof.
  revert off off' data. induction bs as [|b bs IH]; intros off off' data E; [done|].
  simpl. rewrite E. by apply IH, to_size_t_congr_succ.
Qed.

Lemma to_size_t_idemp pf z : to_size_t pf (to_size_t pf z) = to_size_t pf z.
Proof. unfold to_size_t. apply Zmod_mod. Qed.

(** C6. For every kind and every offset, [get_size] yields the padding
    that aligns the offset to the alignment of [unsigned int] (the least
    non-negative padding that does) plus the four bytes of the value; it is
    a function of the offset alone: whatever the state, the caches and the
    log of system calls come out as they went in, and the result is the
    same. *)
Theorem compute_size_padding_plus_width pf k offset :
  platform_ok pf = true ->
  exists padding,
    0 <= padding < lttng_alignof_uint pf /\
    (lttng_alignof_uint pf | offset + padding) /\
    (forall p, 0 <= p -> (lttng_alignof_uint pf | offset + p) -> padding <= p) /\
    forall w, compute_size (provider_of pf k) offset w = (padding + 4, w).
Proof.
  intros Hpf. pose proof (platform_ok_align pf Hpf) as Ha.
  exists (lib_ring_buffer_align offset (lttng_alignof_uint pf)).
  destruct (lib_ring_buffer_align_spec offset (lttng_alignof_uint pf))
    as [Hp Hd]; [lia|].
  repeat split; try done; try lia.
  - intros p Hp0 Hdiv. apply lib_ring_buffer_align_least; [lia|done|done].
  - intros w. by apply compute_size_eq.
Qed.

Lemma compute_size_padding_plus_width_witness :
  platform_ok linux_ppc32 = true /\
  exists padding,
    0 <= padding < 4 /\ (4 | 5 + padding) /\
    (forall p, 0 <= p -> (4 | 5 + p) -> padding <= p) /\
    forall w, compute_size (provider_of linux_ppc32 (per_thread net)) 5 w
              = (padding + 4, w).
Proof.
  split; [reflexivity|].
  apply (compute_size_padding_plus_width linux_ppc32 (per_thread net) 5).
  reflexivity.
Defined.

(** C1. For every kind and every cursor of the sink, [record] advances the
    cursor by exactly what [get_size] answers for the cursor it found: the
    padding that aligns it, then four bytes, which are the object
    representation of the resolved value in the byte order of the
    platform; no other byte of the sink changes. *)
Theorem record_appends_compute_size pf k os t ctx w :
  platform_ok pf = true ->
  wf_world w = true ->
  exists v w' ctx' sz padding,
    resolve (provider_of pf k) os t w = (v, w') /\
    record_op (provider_of pf k) os t ctx w = (ctx', w') /\
    compute_size (provider_of pf k) (buf_offset ctx) w = (sz, w) /\
    to_size_t pf (buf_offset ctx' - buf_offset ctx) = sz /\
    sz = padding + 4 /\
    0 <= padding < lttng_alignof_uint pf /\
    (lttng_alignof_uint pf | buf_offset ctx + padding) /\
    load_bytes pf (buf_offset ctx + padding) 4 (buf_data ctx')
      = map Some (uint_bytes pf v) /\
    uint_of_bytes pf (uint_bytes pf v) = v /\
    forall o,
      (forall i, 0 <= i < 4 -> o <> to_size_t pf (buf_offset ctx + padding + i)) ->
      buf_data ctx' !! o = buf_data ctx !! o.
Proof.
  intros Hpf Hw. pose proof (platform_ok_align pf Hpf) as Ha.
  apply wf_world_spec in Hw.
  set (pad := lib_ring_buffer_align (buf_offset ctx) (lttng_alignof_uint pf)).
  destruct (lib_ring_buffer_align_spec (buf_offset ctx) (lttng_alignof_uint pf))
    as [Hp Hd]; [lia|]. fold pad in Hp, Hd.
  destruct (resolve (provider_of pf k) os t w) as [v w'] eqn:Er.
  assert (is_uint v) as Hv.
  { destruct (decide (cache_value k t w = 0)) as [E|E].
    - rewrite resolve_miss in Er by done. simpl in Er.
      destruct (lookup_identity pf os k t); inversion Er; subst;
        [apply to_uint_range|done].
    - rewrite resolve_hit in Er by done. inversion Er; subst.
      destruct Hw as [Hpid Htls]. destruct k; [done|apply Htls]. }
  exists v, w', (sink_put pf ctx v), (pad + sizeof_uint), pad.
  split; [done|]. split; [by rewrite record_resolve, Er|].
  split; [by apply compute_size_eq|].
  split.
  { rewrite sink_put_offset. fold pad. unfold to_size_t.
    rewrite Zminus_mod_idemp_l.
    replace (buf_offset ctx + (pad + sizeof_uint) - buf_offset ctx)
      with (pad + sizeof_uint) by lia.
    apply (to_size_t_small pf); [done|]. unfold sizeof_uint. lia. }
  split; [done|]. split; [done|]. split; [done|].
  rewrite sink_put_data. fold pad.
  rewrite (store_bytes_congr pf _ (buf_offset ctx + pad))
    by apply to_size_t_idemp.
  split.
  { rewrite <- (uint_bytes_length pf v).
    apply load_store_bytes; [done|]. rewrite uint_bytes_length. lia. }
  split; [by apply uint_of_bytes_bytes|].
  intros o Ho. apply store_bytes_lookup_other.
  rewrite uint_bytes_length. intros i Hi. apply Ho. lia.
Qed.

Lemma record_appends_compute_size_witness :
  platform_ok linux_ppc32 = true /\
  wf_world initial_world = true /\
  exists v w' ctx' sz padding,
    resolve (provider_of linux_ppc32 (per_thread net)) os_modern 77 initial_world
      = (v, w') /\
    record_op (provider_of linux_ppc32 (per_thread net)) os_modern 77
      {| buf_offset := 5; buf_data := ∅ |} initial_world = (ctx', w') /\
    compute_size (provider_of linux_ppc32 (per_thread net)) 5 initial_world
      = (sz, initial_world) /\
    to_size_t linux_ppc32 (buf_offset ctx' - 5) = sz /\
    sz = padding + 4 /\
    0 <= padding < 4 /\
    (4 | 5 + padding) /\
    load_bytes linux_ppc32 (5 + padding) 4 (buf_data ctx')
      = map Some (uint_bytes linux_ppc32 v) /\
    uint_of_bytes linux_ppc32 (uint_bytes linux_ppc32 v) = v /\
    forall o,
      (forall i, 0 <= i < 4 -> o <> to_size_t linux_ppc32 (5 + padding + i)) ->
      buf_data ctx' !! o = (∅ : gmap Z Z) !! o.
Proof.
  split; [reflexivity|]. split; [reflexivity|].
  apply (record_appends_compute_size linux_ppc32 (per_thread net) os_modern 77
           {| buf_offset := 5; buf_data := ∅ |} initial_world);
    reflexivity.
Defined.

(** ** Registration *)

Lemma insert_at_end {A} (l : list A) (x y : A) :
  <[length l := y]> (l ++ [x]) = l ++ [y].
Proof. induction l as [|a l IH]; simpl; [done|]. by rewrite IH. Qed.

Lemma delete_at_end {A} (l : list A) (x : A) : delete (length l) (l ++ [x]) = l.
Proof. induction l as [|a l IH]; simpl; [done|]. by rewrite IH. Qed.

Lemma find_context_app ctx s f u :
  lttng_find_context {| fields := fields ctx ++ [f]; nr_updates := u |} s
    = lttng_find_context ctx s || field_named s f.
Proof.
  unfold lttng_find_context; simpl. rewrite existsb_app; simpl.
  by rewrite orb_false_r.
Qed.

Lemma count_named_absent s ctx :
  lttng_find_context ctx s = false -> count_named s ctx = 0%nat.
Proof.
  unfold lttng_find_context, count_named.
  induction (fields ctx) as [|f l IH]; simpl; [done|].
  rewrite orb_false_iff. intros [Hf Hl].
  rewrite filter_cons_False by congruence. by apply IH.
Qed.

Lemma add_named_field_fresh s f ctx :
  name (event_field f) = Some s ->
  lttng_find_context ctx s = false ->
  add_named_field s f true ctx =
    (0, {| fields := fields ctx ++ [f]; nr_updates := S (nr_updates ctx) |}).
Proof.
  intros Hf Hfind. unfold add_named_field, lttng_append_context.
  rewrite find_context_app, Hfind. simpl.
  unfold lttng_context_update, assign_field; simpl.
  by rewrite insert_at_end.
Qed.

Lemma add_named_field_present s f ctx :
  lttng_find_context ctx s = true ->
  add_named_field s f true ctx = (- EEXIST, ctx).
Proof.
  intros Hfind. unfold add_named_field, lttng_append_context.
  rewrite find_context_app, Hfind. simpl.
  unfold lttng_remove_context_field; simpl. rewrite delete_at_end.
  by destruct ctx.
Qed.

(** When no slot can be allocated the registry is left as it was. *)
Lemma add_named_field_nomem s f ctx :
  add_named_field s f false ctx = (- ENOMEM, ctx).
Proof. done. Qed.

Lemma register_add_named_field pf k :
  register (provider_of pf k)
    = add_named_field (field_name (provider_of pf k)) (installed_field pf k).
Proof. by destruct k. Qed.

(** C2. For every kind, on a registry that has no field of the kind's name
    and can allocate a slot, [lttng_add_*_ns_to_ctx] returns 0 and leaves
    the registry with one more slot, the only one of that name; called
    again it returns -EEXIST, and the slot it had just been given is rolled
    back, so that the registry is the one the first call left. *)
Theorem register_twice pf k ctx :
  lttng_find_context ctx (field_name (provider_of pf k)) = false ->
  exists ctx1,
    register (provider_of pf k) true ctx = (0, ctx1) /\
    fields ctx1 = fields ctx ++ [installed_field pf k] /\
    count_named (field_name (provider_of pf k)) ctx1 = 1%nat /\
    register (provider_of pf k) true ctx1 = (- EEXIST, ctx1).
Proof.
  intros Hfresh. rewrite register_add_named_field.
  set (s := field_name (provider_of pf k)) in *.
  assert (field_named s (installed_field pf k) = true) as Hnamed.
  { unfold field_named. by apply bool_decide_eq_true. }
  eexists. split; [by apply add_named_field_fresh|]. split; [done|]. split.
  - unfold count_named; simpl. rewrite filter_app, length_app.
    change (length (filter (λ f, field_named s f = true) (fields ctx)))
      with (count_named s ctx).
    rewrite count_named_absent by done.
    by rewrite filter_cons_True.
  - apply add_named_field_present.
    by rewrite find_context_app, Hnamed, orb_true_r.
Qed.

Lemma register_twice_witness :
  lttng_find_context empty_ctx
    (field_name (provider_of linux_x86_64 (per_thread net))) = false /\
  exists ctx1,
    register (provider_of linux_x86_64 (per_thread net)) true empty_ctx
      = (0, ctx1) /\
    fields ctx1 = fields empty_ctx ++ [installed_field linux_x86_64 (per_thread net)] /\
    count_named (field_name (provider_of linux_x86_64 (per_thread net))) ctx1
      = 1%nat /\
    register (provider_of linux_x86_64 (per_thread net)) true ctx1
      = (- EEXIST, ctx1).
Proof.
  split; [reflexivity|].
  apply (register_twice linux_x86_64 (per_thread net) empty_ctx). reflexivity.
Defined.

(** ** The cache across calls *)

Section Cache.

Context (pf : platform).

Lemma probed_paths_length os k t :
  length (probed_paths pf os k t) = 1%nat \/ length (probed_paths pf os k t) = 2%nat.
Proof.
  unfold probed_paths. destruct (os_stat os t (primary_path k)); [by left|].
  destruct k as [|ns]; [by left|].
  destruct (fallback_path pf os ns t); [by right|by left].
Qed.

(** What follows from the two resolution lemmas on a miss. *)
Lemma resolve_miss_facts k os t w :
  cache_value k t w = 0 ->
  exists v w1,
    resolve (provider_of pf k) os t w = (v, w1) /\
    v = match lookup_identity pf os k t with
        | Some ino => to_uint ino
        | None => 0
        end /\
    syscalls w1 = syscalls w ++ map (pair t) (probed_paths pf os k t) /\
    cache_value k t w1 = v /\
    (k = pid -> forall t', cache_value k t' w1 = v) /\
    (forall k' t', k <> k' \/ (k <> pid /\ t <> t') ->
       cache_value k' t' w1 = cache_value k' t' w).
Proof.
  intros Hmiss. rewrite (resolve_miss pf k os t w Hmiss). simpl.
  destruct (lookup_identity pf os k t) as [ino|]; eexists _, _;
    (split; [reflexivity|]); (split; [reflexivity|]).
  - split; [by rewrite syscalls_set_cache|].
    split; [by rewrite cache_value_set_same|].
    split; [by intros ->|].
    intros k' t' H. by rewrite cache_value_set_other, cache_value_log.
  - split; [done|]. split; [by rewrite cache_value_log|].
    split; [intros -> t'; by rewrite cache_value_log|].
    intros k' t' _. by rewrite cache_value_log.
Qed.

Lemma reset_eq k t w : reset (provider_of pf k) t w = (tt, set_cache k t 0 w).
Proof. by destruct k. Qed.

Lemma compute_size_pure k offset w :
  snd (compute_size (provider_of pf k) offset w) = w.
Proof. by destruct k. Qed.

Lemma fixup_pure k f t w : fixup (provider_of pf k) = Some f -> f t w = (tt, w).
Proof. destruct k as [|ns]; [done|]. by intros [= <-]. Qed.

(** Resolution, by any thread and for any kind, never changes a cell that
    holds a value. *)
Lemma resolve_keeps_resolved k t k' os t' w :
  cache_value k t w <> 0 ->
  cache_value k t (snd (resolve (provider_of pf k') os t' w)) = cache_value k t w.
Proof.
  intros Hv.
  destruct (decide (cache_value k' t' w = 0)) as [Hmiss|Hhit].
  - destruct (resolve_miss_facts k' os t' w Hmiss)
      as (v & w1 & -> & _ & _ & _ & _ & Hframe). simpl.
    apply Hframe.
    destruct (decide (k' = k)) as [->|Hk]; [|by left].
    destruct k as [|ns]; [done|]. right. split; [done|]. by intros ->.
  - by rewrite resolve_hit.
Qed.

Lemma run_op_keeps_resolved k t o w :
  cache_value k t w <> 0 ->
  resets_cell k t o = false ->
  cache_value k t (run_op pf o w) = cache_value k t w.
Proof.
  intros Hv Hr. destruct o as [k' os t'|k' os t'|k' os t' ctx|k' off|k' t'|k' t'];
    simpl in *.
  - by apply resolve_keeps_resolved.
  - rewrite read_resolve.
    rewrite <- (resolve_keeps_resolved k t k' os t' w Hv).
    by destruct (resolve (provider_of pf k') os t' w).
  - rewrite record_resolve.
    rewrite <- (resolve_keeps_resolved k t k' os t' w Hv).
    by destruct (resolve (provider_of pf k') os t' w).
  - by rewrite compute_size_pure.
  - destruct (fixup (provider_of pf k')) as [f|] eqn:E; [|done].
    by rewrite (fixup_pure k' f t' w E).
  - rewrite reset_eq. simpl. apply cache_value_set_other.
    rewrite andb_false_iff, orb_false_iff, !bool_decide_eq_false in Hr.
    destruct Hr as [Hk|[Hp Ht]]; [by left|].
    destruct (decide (k' = k)) as [->|]; [right|by left]. done.
Qed.

End Cache.

(** ** Memoization *)

(** C3, counterexample. After a miss whose lookups found nothing, the next
    call of [get_value] is a miss again: the kernel has no namespace files,
    thread 77 reads the net namespace twice, and the second call issues two
    more [stat] calls. *)
Lemma second_read_after_failed_resolution_probes_again :
  cache_value (per_thread net) 77 initial_world = 0 /\
  exists v1 w1 v2 w2,
    read (provider_of linux_x86_64 (per_thread net)) os_no_ns 77 initial_world
      = (v1, w1) /\
    read (provider_of linux_x86_64 (per_thread net)) os_no_ns 77 w1
      = (v2, w2) /\
    syscalls w1 =
      [(77, "/proc/thread-self/ns/net"); (77, "/proc/self/task/77/ns/net")] /\
    syscalls w2 =
      syscalls w1 ++
      [(77, "/proc/thread-self/ns/net"); (77, "/proc/self/task/77/ns/net")] /\
    syscalls w2 <> syscalls w1.
Proof.
  split; [reflexivity|].
  eexists _, _, _, _. split; [reflexivity|]. split; [reflexivity|].
  split; [reflexivity|]. split; [reflexivity|]. discriminate.
Qed.

(** C3, amended. For every kind, starting from an unresolved cache, the
    first [get_value] or [record] makes one resolution attempt, of one or
    two [stat] calls. If it obtained a non-zero value, a second [get_value]
    or [record] without a reset in between issues no system call and
    yields the same value; if it obtained 0 the cache is still unresolved
    and the second call makes a resolution attempt of its own. *)
Theorem first_access_resolves_second_is_cached pf k os t w :
  cache_value k t w = 0 ->
  exists v1 w1 probes,
    read (provider_of pf k) os t w = ({| s64 := v1 |}, w1) /\
    (forall ctx,
       record_op (provider_of pf k) os t ctx w = (sink_put pf ctx v1, w1)) /\
    syscalls w1 = syscalls w ++ probes /\
    probes = map (pair t) (probed_paths pf os k t) /\
    (length probes = 1%nat \/ length probes = 2%nat) /\
    (v1 <> 0 ->
     forall os',
       read (provider_of pf k) os' t w1 = ({| s64 := v1 |}, w1) /\
       forall ctx,
         record_op (provider_of pf k) os' t ctx w1 = (sink_put pf ctx v1, w1)) /\
    (v1 = 0 ->
     forall os', exists v2 w2 probes',
       read (provider_of pf k) os' t w1 = ({| s64 := v2 |}, w2) /\
       (forall ctx,
          record_op (provider_of pf k) os' t ctx w1 = (sink_put pf ctx v2, w2)) /\
       syscalls w2 = syscalls w1 ++ probes' /\
       (length probes' = 1%nat \/ length probes' = 2%nat)).
Proof.
  intros Hmiss.
  destruct (resolve_miss_facts pf k os t w Hmiss)
    as (v1 & w1 & Er & _ & Hsys & Hc & _ & _).
  exists v1, w1, (map (pair t) (probed_paths pf os k t)).
  split; [by rewrite read_resolve, Er|].
  split; [intros ctx; by rewrite record_resolve, Er|].
  split; [done|]. split; [done|].
  split; [rewrite length_map; apply probed_paths_length|].
  split.
  - intros Hv os'. rewrite <- Hc in Hv.
    pose proof (resolve_hit pf k os' t w1 Hv) as Eh. rewrite Hc in Eh.
    split; [by rewrite read_resolve, Eh|].
    intros ctx. by rewrite record_resolve, Eh.
  - intros Hv os'. rewrite Hv in Hc.
    destruct (resolve_miss_facts pf k os' t w1 Hc)
      as (v2 & w2 & Er2 & _ & Hsys2 & _).
    exists v2, w2, (map (pair t) (probed_paths pf os' k t)).
    split; [by rewrite read_resolve, Er2|].
    split; [intros ctx; by rewrite record_resolve, Er2|].
    split; [done|]. rewrite length_map; apply probed_paths_length.
Qed.

Lemma first_access_resolves_second_is_cached_witness :
  cache_value (per_thread net) 77 initial_world = 0 /\
  exists v1 w1 probes,
    read (provider_of linux_x86_64 (per_thread net)) os_legacy 77 initial_world
      = ({| s64 := v1 |}, w1) /\
    (forall ctx,
       record_op (provider_of linux_x86_64 (per_thread net)) os_legacy 77 ctx
         initial_world = (sink_put linux_x86_64 ctx v1, w1)) /\
    syscalls w1 = syscalls initial_world ++ probes /\
    probes = map (pair 77) (probed_paths linux_x86_64 os_legacy (per_thread net) 77) /\
    (length probes = 1%nat \/ length probes = 2%nat) /\
    (v1 <> 0 ->
     forall os',
       read (provider_of linux_x86_64 (per_thread net)) os' 77 w1
         = ({| s64 := v1 |}, w1) /\
       forall ctx,
         record_op (provider_of linux_x86_64 (per_thread net)) os' 77 ctx w1
           = (sink_put linux_x86_64 ctx v1, w1)) /\
    (v1 = 0 ->
     forall os', exists v2 w2 probes',
       read (provider_of linux_x86_64 (per_thread net)) os' 77 w1
         = ({| s64 := v2 |}, w2) /\
       (forall ctx,
          record_op (provider_of linux_x86_64 (per_thread net)) os' 77 ctx w1
            = (sink_put linux_x86_64 ctx v2, w2)) /\
       syscalls w2 = syscalls w1 ++ probes' /\
       (length probes' = 1%nat \/ length probes' = 2%nat)).
Proof.
  split; [reflexivity|].
  apply (first_access_resolves_second_is_cached linux_x86_64 (per_thread net)
           os_legacy 77 initial_world).
  reflexivity.
Defined.

(** ** Failure of the lookups *)

Lemma lookup_identity_None pf os k t :
  os_stat os t (primary_path k) = None ->
  (forall ns path,
     k = per_thread ns -> fallback_path pf os ns t = Some path ->
     os_stat os t path = None) ->
  lookup_identity pf os k t = None.
Proof.
  intros Hp Hf. unfold lookup_identity. rewrite Hp.
  destruct k as [|ns]; [done|].
  destruct (fallback_path pf os ns t) as [path|] eqn:E; [|done].
  by apply (Hf ns path).
Qed.

(** C4. For every kind and every answer of the operating system, resolution
    returns, and returns an [unsigned int]; [get_value] and [record] return
    as well, with that value. When the primary probe fails and, for a
    per-thread kind, the fallback path cannot be built or its probe fails
    too, an unresolved cache stays at 0 and 0 is the value returned. *)
Theorem resolve_always_returns pf k os t w :
  wf_world w = true ->
  exists v w',
    resolve (provider_of pf k) os t w = (v, w') /\
    is_uint v /\
    wf_world w' = true /\
    read (provider_of pf k) os t w = ({| s64 := v |}, w') /\
    (forall ctx,
       record_op (provider_of pf k) os t ctx w = (sink_put pf ctx v, w')) /\
    (cache_value k t w = 0 ->
     os_stat os t (primary_path k) = None ->
     (forall ns path,
        k = per_thread ns -> fallback_path pf os ns t = Some path ->
        os_stat os t path = None) ->
     v = 0 /\ cache_value k t w' = 0).
Proof.
  intros Hw. apply wf_world_spec in Hw.
  destruct (resolve (provider_of pf k) os t w) as [v w'] eqn:Er.
  exists v, w'. split; [done|].
  assert (is_uint v /\ cells_uint w') as [Hv Hw'].
  { destruct (decide (cache_value k t w = 0)) as [E|E].
    - rewrite resolve_miss in Er by done. simpl in Er.
      destruct (lookup_identity pf os k t); inversion Er; subst.
      + split; [apply to_uint_range|].
        apply cells_uint_set_cache; [by apply cells_uint_log|apply to_uint_range].
      + split; [done|by apply cells_uint_log].
    - rewrite resolve_hit in Er by done. inversion Er; subst.
      split; [|done]. destruct Hw as [Hpid Htls]. destruct k; [done|apply Htls]. }
  split; [done|]. split; [by apply wf_world_spec|].
  split; [by rewrite read_resolve, Er|].
  split; [intros ctx; by rewrite record_resolve, Er|].
  intros Hmiss Hp Hf.
  destruct (resolve_miss_facts pf k os t w Hmiss)
    as (v' & w1 & Er' & Hv' & _ & Hc & _).
  rewrite Er in Er'. injection Er' as <- <-.
  rewrite (lookup_identity_None pf os k t Hp Hf) in Hv'. by subst v.
Qed.

Lemma resolve_always_returns_witness :
  wf_world initial_world = true /\
  exists v w',
    resolve (provider_of linux_x86_64 (per_thread ipc)) os_no_ns 77 initial_world
      = (v, w') /\
    is_uint v /\
    wf_world w' = true /\
    read (provider_of linux_x86_64 (per_thread ipc)) os_no_ns 77 initial_world
      = ({| s64 := v |}, w') /\
    (forall ctx,
       record_op (provider_of linux_x86_64 (per_thread ipc)) os_no_ns 77 ctx
         initial_world = (sink_put linux_x86_64 ctx v, w')) /\
    (cache_value (per_thread ipc) 77 initial_world = 0 ->
     os_stat os_no_ns 77 (primary_path (per_thread ipc)) = None ->
     (forall ns path,
        per_thread ipc = per_thread ns ->
        fallback_path linux_x86_64 os_no_ns ns 77 = Some path ->
        os_stat os_no_ns 77 path = None) ->
     v = 0 /\ cache_value (per_thread ipc) 77 w' = 0).
Proof.
  split; [reflexivity|].
  apply (resolve_always_returns linux_x86_64 (per_thread ipc) os_no_ns 77
           initial_world).
  reflexivity.
Defined.

(** ** Reset *)

(** C5. For every kind, [reset] puts 0 in the cache cell of the calling
    scope, the one process-wide cell for pid, the caller's own copy for the
    other kinds (the cells of other kinds and of other threads keep their
    value), without a system call. The [get_value] that follows is a miss:
    it probes the primary path again and returns what this lookup finds,
    whatever the cache held before the reset. *)
Theorem reset_then_read_resolves_again pf k os t w :
  exists w0,
    reset (provider_of pf k) t w = (tt, w0) /\
    cache_value k t w0 = 0 /\
    (k = pid -> forall t', cache_value k t' w0 = 0) /\
    (forall k' t', k <> k' \/ (k <> pid /\ t <> t') ->
       cache_value k' t' w0 = cache_value k' t' w) /\
    syscalls w0 = syscalls w /\
    exists v w1 more,
      read (provider_of pf k) os t w0 = ({| s64 := v |}, w1) /\
      syscalls w1 = syscalls w0 ++ (t, primary_path k) :: more /\
      v = match lookup_identity pf os k t with
          | Some ino => to_uint ino
          | None => 0
          end /\
      cache_value k t w1 = v.
Proof.
  exists (set_cache k t 0 w).
  split; [apply reset_eq|].
  assert (cache_value k t (set_cache k t 0 w) = 0) as Hmiss
    by apply cache_value_set_same.
  split; [done|]. split; [by intros ->|].
  split; [intros k' t' H; by apply cache_value_set_other|].
  split; [apply syscalls_set_cache|].
  destruct (resolve_miss_facts pf k os t _ Hmiss)
    as (v & w1 & Er & Hv & Hsys & Hc & _).
  exists v, w1, (map (pair t) (tail (probed_paths pf os k t))).
  split; [by rewrite read_resolve, Er|].
  split; [by rewrite Hsys|]. done.
Qed.

(** ** The pid namespace *)

(** C7. Resolution of the pid namespace probes one path, the same for
    every thread, and nothing else whatever the answer; the value goes to a
    single variable that every thread reads, so that once a non-zero value
    is there, [get_pid_ns] called by any thread returns it without a system
    call. *)
Theorem pid_ns_single_path_shared_cache pf os t1 w :
  cache_value pid t1 w = 0 ->
  exists v w1,
    resolve (provider_of pf pid) os t1 w = (v, w1) /\
    syscalls w1 = syscalls w ++ [(t1, "/proc/self/ns/pid")] /\
    v = match os_stat os t1 "/proc/self/ns/pid" with
        | Some ino => to_uint ino
        | None => 0
        end /\
    (forall t, cache_value pid t w1 = v) /\
    (v <> 0 -> forall os' t2, resolve (provider_of pf pid) os' t2 w1 = (v, w1)).
Proof.
  intros Hmiss.
  destruct (resolve_miss_facts pf pid os t1 w Hmiss)
    as (v & w1 & Er & Hv & Hsys & Hc & Hall & _).
  exists v, w1. split; [done|].
  split.
  { rewrite Hsys. unfold probed_paths. simpl.
    by destruct (os_stat os t1 "/proc/self/ns/pid"). }
  split.
  { rewrite Hv. unfold lookup_identity. simpl.
    by destruct (os_stat os t1 "/proc/self/ns/pid"). }
  split; [by apply Hall|].
  intros Hnz os' t2.
  rewrite (resolve_hit pf pid os' t2 w1); [by rewrite (Hall eq_refl t2)|].
  by rewrite (Hall eq_refl t2).
Qed.

Lemma pid_ns_single_path_shared_cache_witness :
  cache_value pid 77 initial_world = 0 /\
  exists v w1,
    resolve (provider_of linux_x86_64 pid) os_modern 77 initial_world = (v, w1) /\
    syscalls w1 = syscalls initial_world ++ [(77, "/proc/self/ns/pid")] /\
    v = match os_stat os_modern 77 "/proc/self/ns/pid" with
        | Some ino => to_uint ino
        | None => 0
        end /\
    (forall t, cache_value pid t w1 = v) /\
    (v <> 0 ->
     forall os' t2, resolve (provider_of linux_x86_64 pid) os' t2 w1 = (v, w1)).
Proof.
  split; [reflexivity|].
  apply (pid_ns_single_path_shared_cache linux_x86_64 os_modern 77 initial_world).
  reflexivity.
Defined.

(** ** Fixup of thread-local storage *)

(** C8, counterexample. The file of the pid namespace defines no fixup. *)
Lemma pid_provider_exposes_no_fixup :
  fixup (provider_of linux_x86_64 pid) = None.
Proof. reflexivity. Qed.

(** C8, amended. Each of the five per-thread kinds exposes a fixup, which
    reads the thread-local cache of the kind and does nothing else: it
    returns, and the caches and the log of system calls are as before. The
    pid provider, whose cache is not thread-local, exposes none. *)
Theorem per_thread_fixup_changes_nothing pf :
  (forall ns, exists f,
     fixup (provider_of pf (per_thread ns)) = Some f /\
     f = lttng_fixup_tls_ns_tls ns /\
     forall t w, f t w = (tt, w)) /\
  fixup (provider_of pf pid) = None.
Proof.
  split; [|done]. intros ns. by exists (lttng_fixup_tls_ns_tls ns).
Qed.

(** ** The cache between a resolution and a reset *)

Lemma run_ops_snoc pf ops o w :
  run_ops pf (ops ++ [o]) w = run_op pf o (run_ops pf ops w).
Proof. unfold run_ops. by rewrite foldl_app. Qed.

(** C9. For every kind, once the cell holds a non-zero value, no sequence
    of calls (resolve, get_value, record, get_size, fixup, of any kind and
    by any thread, and resets of other cells) changes it as long as none
    of them is a reset of this cell; after any such sequence resolve and
    [get_value] return that value and [record] serializes it. *)
Theorem resolved_cache_constant_until_reset pf k t v ops w :
  cache_value k t w = v ->
  v <> 0 ->
  forallb (λ o, negb (resets_cell k t o)) ops = true ->
  cache_value k t (run_ops pf ops w) = v /\
  forall os,
    resolve (provider_of pf k) os t (run_ops pf ops w)
      = (v, run_ops pf ops w) /\
    read (provider_of pf k) os t (run_ops pf ops w)
      = ({| s64 := v |}, run_ops pf ops w) /\
    forall ctx,
      record_op (provider_of pf k) os t ctx (run_ops pf ops w)
        = (sink_put pf ctx v, run_ops pf ops w).
Proof.
  intros Hc Hv Hops.
  assert (cache_value k t (run_ops pf ops w) = v) as Hinv.
  { induction ops as [|o ops IH] using rev_ind; [done|].
    rewrite forallb_app in Hops. apply andb_true_iff in Hops as [Hops Ho].
    simpl in Ho. rewrite andb_true_r, negb_true_iff in Ho.
    rewrite run_ops_snoc, run_op_keeps_resolved; [by apply IH| |done].
    by rewrite IH. }
  split; [done|]. intros os.
  assert (resolve (provider_of pf k) os t (run_ops pf ops w)
          = (v, run_ops pf ops w)) as Eh.
  { rewrite resolve_hit; by rewrite Hinv. }
  split; [done|]. split; [by rewrite read_resolve, Eh|].
  intros ctx. by rewrite record_resolve, Eh.
Qed.

Lemma resolved_cache_constant_until_reset_witness :
  cache_value (per_thread net) 77 sample_resolved_world = 4026531840 /\
  4026531840 <> 0 /\
  forallb (λ o, negb (resets_cell (per_thread net) 77 o)) sample_ops = true /\
  cache_value (per_thread net) 77
    (run_ops linux_x86_64 sample_ops sample_resolved_world) = 4026531840 /\
  forall os,
    resolve (provider_of linux_x86_64 (per_thread net)) os 77
      (run_ops linux_x86_64 sample_ops sample_resolved_world)
      = (4026531840, run_ops linux_x86_64 sample_ops sample_resolved_world) /\
    read (provider_of linux_x86_64 (per_thread net)) os 77
      (run_ops linux_x86_64 sample_ops sample_resolved_world)
      = ({| s64 := 4026531840 |},
         run_ops linux_x86_64 sample_ops sample_resolved_world) /\
    forall ctx,
      record_op (provider_of linux_x86_64 (per_thread net)) os 77 ctx
        (run_ops linux_x86_64 sample_ops sample_resolved_world)
        = (sink_put linux_x86_64 ctx 4026531840,
           run_ops linux_x86_64 sample_ops sample_resolved_world).
Proof.
  split; [reflexivity|]. split; [lia|]. split; [reflexivity|].
  apply (resolved_cache_constant_until_reset linux_x86_64 (per_thread net) 77
           4026531840 sample_ops sample_resolved_world);
    [reflexivity|lia|reflexivity].
Defined.

(** ** Truncation of the inode *)

(** When the lookup of the spec's algorithm succeeds, in terms of the
    answers of [stat]. *)
Lemma lookup_identity_Some pf os k t ino :
  lookup_identity pf os k t = Some ino <->
  os_stat os t (primary_path k) = Some ino \/
  (os_stat os t (primary_path k) = None /\
   exists ns path,
     k = per_thread ns /\ fallback_path pf os ns t = Some path /\
     os_stat os t path = Some ino).
Proof.
  unfold lookup_identity. destruct (os_stat os t (primary_path k)) as [i|].
  - split; [by left|]. intros [H|[H _]]; done.
  - split.
    + intros H. right. split; [done|]. destruct k as [|ns]; [done|].
      destruct (fallback_path pf os ns t) as [path|] eqn:E; [|done].
      by exists ns, path.
    + intros [H|[_ (ns & path & -> & Hf & Hs)]]; [done|]. by rewrite Hf.
Qed.

Lemma to_uint_multiple m : to_uint (m * 2 ^ 32) = 0.
Proof. unfold to_uint. rewrite UINT_MODULUS_eq. apply Z_mod_mult. Qed.

(** C10. For every kind, when the lookup of an unresolved cache succeeds
    with inode [ino], the value stored and returned is [ino] modulo 2^32;
    hence an inode that is a multiple of 2^32 is stored as 0, and the cache
    is still unresolved. *)
Theorem resolve_stores_inode_mod_2_32 pf k os t w ino :
  cache_value k t w = 0 ->
  lookup_identity pf os k t = Some ino ->
  exists w',
    resolve (provider_of pf k) os t w = (ino mod 2 ^ 32, w') /\
    cache_value k t w' = ino mod 2 ^ 32 /\
    0 <= ino mod 2 ^ 32 < 2 ^ 32 /\
    (forall m, ino = m * 2 ^ 32 ->
       resolve (provider_of pf k) os t w = (0, w') /\ cache_value k t w' = 0).
Proof.
  intros Hmiss Hl.
  destruct (resolve_miss_facts pf k os t w Hmiss)
    as (v & w1 & Er & Hv & _ & Hc & _).
  rewrite Hl in Hv. change (to_uint ino) with (ino mod 2 ^ 32) in Hv. subst v.
  exists w1. split; [done|]. split; [done|].
  split; [apply Z.mod_pos_bound; lia|].
  intros m ->.
  assert ((m * 2 ^ 32) mod 2 ^ 32 = 0) as E by apply to_uint_multiple.
  by rewrite E in Er, Hc.
Qed.

Lemma resolve_stores_inode_mod_2_32_witness :
  cache_value (per_thread net) 77 initial_world = 0 /\
  lookup_identity linux_x86_64 os_wide_inodes (per_thread net) 77
    = Some (3 * 2 ^ 32) /\
  exists w',
    resolve (provider_of linux_x86_64 (per_thread net)) os_wide_inodes 77
      initial_world = ((3 * 2 ^ 32) mod 2 ^ 32, w') /\
    cache_value (per_thread net) 77 w' = (3 * 2 ^ 32) mod 2 ^ 32 /\
    0 <= (3 * 2 ^ 32) mod 2 ^ 32 < 2 ^ 32 /\
    (forall m, 3 * 2 ^ 32 = m * 2 ^ 32 ->
       resolve (provider_of linux_x86_64 (per_thread net)) os_wide_inodes 77
         initial_world = (0, w') /\
       cache_value (per_thread net) 77 w' = 0).
Proof.
  split; [reflexivity|]. split; [reflexivity|].
  apply (resolve_stores_inode_mod_2_32 linux_x86_64 (per_thread net)
           os_wide_inodes 77 initial_world (3 * 2 ^ 32)); reflexivity.
Defined.

(** ** The scenario of the net namespace *)

(** The resolver finds inode 4026531840 on the first probe: [get_value]
    returns it with one system call. *)
Example net_ns_read_scenario :
  let '(v, w) := net_ns_get_value linux_ppc32 os_modern 77 initial_world in
  s64 v = 4026531840 /\ syscalls w = [(77, "/proc/thread-self/ns/net")].
Proof. split; reflexivity. Qed.

(** [record] at offset 0 with alignment 4 writes the four bytes of the
    value, here in big-endian order, and moves the cursor to 4. *)
Example net_ns_record_scenario :
  let '(ctx, w) := net_ns_record linux_ppc32 os_modern 77 empty_sink initial_world in
  buf_offset ctx = 4 /\
  load_bytes linux_ppc32 0 4 (buf_data ctx) = [Some 240; Some 0; Some 0; Some 0].
Proof. split; reflexivity. Qed.

(** After a reset, with both probes failing, [get_value] returns 0. *)
Example net_ns_reset_scenario :
  let '(_, w) := net_ns_get_value linux_ppc32 os_modern 77 initial_world in
  let '(_, w) := lttng_context_net_ns_reset 77 w in
  let '(v, w) := net_ns_get_value linux_ppc32 os_no_ns 77 w in
  s64 v = 0 /\
  syscalls w =
    [(77, "/proc/thread-self/ns/net"); (77, "/proc/thread-self/ns/net");
     (77, "/proc/self/task/77/ns/net")].
Proof. split; reflexivity. Qed.

(** On a kernel without /proc/thread-self the second probe resolves the
    value; another thread has its own cache and resolves on its own. *)
Example net_ns_fallback_scenario :
  let '(v, w) := get_net_ns linux_x86_64 os_legacy 77 initial_world in
  let '(v', w') := get_net_ns linux_x86_64 os_no_ns 78 w in
  v = 4026531992 /\ v' = 0 /\ tls_value net 77 w' = 4026531992 /\
  syscalls w =
    [(77, "/proc/thread-self/ns/net"); (77, "/proc/self/task/77/ns/net")].
Proof. repeat split; reflexivity. Qed.

(** The pid cache resolved by one thread serves another. *)
Example pid_ns_shared_scenario :
  let '(v, w) := get_pid_ns os_modern 77 initial_world in
  let '(v', w') := get_pid_ns os_no_ns 78 w in
  v = 4026531836 /\ v' = 4026531836 /\ syscalls w' = [(77, "/proc/self/ns/pid")].
Proof. repeat split; reflexivity. Qed.

(** * Further properties of the providers *)

(** ** Outcomes of registration *)


Lemma installed_field_named pf k s :
  field_named s (installed_field pf k)
    = bool_decide (field_name (provider_of pf k) = s).
Proof.
  unfold field_named; simpl.
  destruct (decide (field_name (provider_of pf k) = s)) as [->|Hne].
  - by rewrite !bool_decide_eq_true_2.
  - rewrite !bool_decide_eq_false_2; [done|done|]. by intros [= ?].
Qed.

(** X1. [lttng_add_*_ns_to_ctx] has three outcomes: -ENOMEM when no slot
    can be allocated, -EEXIST when a field of the kind's name is already
    there (whoever registered it), 0 otherwise, with the populated slot
    added last and one change notification; whenever the result is not 0
    the registry is the one the call was given. *)
Theorem register_outcomes pf k mem_ok ctx :
  register (provider_of pf k) mem_ok ctx =
    (if negb mem_ok then (- ENOMEM, ctx)
     else if lttng_find_context ctx (field_name (provider_of pf k))
          then (- EEXIST, ctx)
          else (0, {| fields := fields ctx ++ [installed_field pf k];
                      nr_updates := S (nr_updates ctx) |})) /\
  (forall r ctx', register (provider_of pf k) mem_ok ctx = (r, ctx') ->
     (r = 0 \/ r = - ENOMEM \/ r = - EEXIST) /\ (r <> 0 -> ctx' = ctx)).
Proof.
  assert (register (provider_of pf k) mem_ok ctx =
    (if negb mem_ok then (- ENOMEM, ctx)
     else if lttng_find_context ctx (field_name (provider_of pf k))
          then (- EEXIST, ctx)
          else (0, {| fields := fields ctx ++ [installed_field pf k];
                      nr_updates := S (nr_updates ctx) |}))) as E.
  { rewrite register_add_named_field. destruct mem_ok; simpl; [|done].
    destruct (lttng_find_context ctx _) eqn:Hf.
    - by apply add_named_field_present.
    - by apply add_named_field_fresh. }
  split; [done|]. intros r ctx'. rewrite E.
  destruct mem_ok; simpl.
  - destruct (lttng_find_context ctx _); intros [= <- <-]; split; auto; done.
  - intros [= <- <-]. split; auto.
Qed.

(** X2. After a registration that returned 0 the registry finds the name
    of the kind, exactly once, and answers for every other name as it did
    before. *)
Theorem register_then_find pf k mem_ok ctx ctx' :
  register (provider_of pf k) mem_ok ctx = (0, ctx') ->
  lttng_find_context ctx' (field_name (provider_of pf k)) = true /\
  count_named (field_name (provider_of pf k)) ctx' = 1%nat /\
  forall s, s <> field_name (provider_of pf k) ->
    lttng_find_context ctx' s = lttng_find_context ctx s /\
    count_named s ctx' = count_named s ctx.
Proof.
  intros E. rewrite register_add_named_field in E.
  destruct mem_ok; [|by inversion E].
  destruct (lttng_find_context ctx (field_name (provider_of pf k))) eqn:Hf.
  { rewrite add_named_field_present in E by done. by inversion E. }
  rewrite (add_named_field_fresh _ (installed_field pf k)) in E by done.
  injection E as <-.
  split; [|split].
  - rewrite find_context_app, installed_field_named.
    by rewrite bool_decide_eq_true_2, orb_true_r.
  - unfold count_named; simpl. rewrite filter_app, length_app.
    change (length (filter _ (fields ctx)))
      with (count_named (field_name (provider_of pf k)) ctx).
    rewrite count_named_absent by done.
    rewrite filter_cons_True; [done|]. rewrite installed_field_named.
    by apply bool_decide_eq_true_2.
  - intros s Hs. split.
    + rewrite find_context_app, installed_field_named.
      by rewrite bool_decide_eq_false_2, orb_false_r.
    + unfold count_named; simpl. rewrite filter_app, length_app.
      rewrite filter_cons_False; [simpl; lia|].
      rewrite installed_field_named, bool_decide_eq_false_2; done.
Qed.

Lemma register_then_find_witness :
  register (provider_of linux_x86_64 pid) true empty_ctx
    = (0, {| fields := [installed_field linux_x86_64 pid]; nr_updates := 1 |}) /\
  lttng_find_context
    {| fields := [installed_field linux_x86_64 pid]; nr_updates := 1 |}
    (field_name (provider_of linux_x86_64 pid)) = true /\
  count_named (field_name (provider_of linux_x86_64 pid))
    {| fields := [installed_field linux_x86_64 pid]; nr_updates := 1 |} = 1%nat /\
  forall s, s <> field_name (provider_of linux_x86_64 pid) ->
    lttng_find_context
      {| fields := [installed_field linux_x86_64 pid]; nr_updates := 1 |} s
      = lttng_find_context empty_ctx s /\
    count_named s
      {| fields := [installed_field linux_x86_64 pid]; nr_updates := 1 |}
      = count_named s empty_ctx.
Proof.
  split; [reflexivity|].
  apply (register_then_find linux_x86_64 pid true empty_ctx). reflexivity.
Defined.



(** ** Scope of a resolution *)

(** X4. Whatever a call of resolve, [get_value] or [record] does to the
    cell of its kind in the scope of its thread, it leaves every other cell
    alone: those of the other kinds and, for a per-thread kind, those of
    the other threads. *)
Theorem access_leaves_other_cells pf k os t k' t' w :
  k <> k' \/ (k <> pid /\ t <> t') ->
  cache_value k' t' (snd (resolve (provider_of pf k) os t w))
    = cache_value k' t' w /\
  cache_value k' t' (snd (read (provider_of pf k) os t w))
    = cache_value k' t' w /\
  forall ctx,
    cache_value k' t' (snd (record_op (provider_of pf k) os t ctx w))
      = cache_value k' t' w.
Proof.
  intros Hother.
  assert (cache_value k' t' (snd (resolve (provider_of pf k) os t w))
          = cache_value k' t' w) as Hr.
  { destruct (decide (cache_value k t w = 0)) as [Hmiss|Hhit].
    - destruct (resolve_miss_facts pf k os t w Hmiss)
        as (v & w1 & -> & _ & _ & _ & _ & Hframe). by apply Hframe.
    - by rewrite resolve_hit. }
  split; [done|]. split.
  - rewrite read_resolve. by destruct (resolve (provider_of pf k) os t w).
  - intros ctx. rewrite record_resolve.
    by destruct (resolve (provider_of pf k) os t w).
Qed.

Lemma access_leaves_other_cells_witness :
  (per_thread net <> per_thread net \/ (per_thread net <> pid /\ 78 <> 77)) /\
  cache_value (per_thread net) 77
    (snd (resolve (provider_of linux_x86_64 (per_thread net)) os_no_ns 78
            sample_resolved_world))
    = cache_value (per_thread net) 77 sample_resolved_world /\
  cache_value (per_thread net) 77
    (snd (read (provider_of linux_x86_64 (per_thread net)) os_no_ns 78
            sample_resolved_world))
    = cache_value (per_thread net) 77 sample_resolved_world /\
  forall ctx,
    cache_value (per_thread net) 77
      (snd (record_op (provider_of linux_x86_64 (per_thread net)) os_no_ns 78
              ctx sample_resolved_world))
      = cache_value (per_thread net) 77 sample_resolved_world.
Proof.
  assert (per_thread net <> per_thread net \/ (per_thread net <> pid /\ 78 <> 77))
    as H by (right; split; [discriminate|lia]).
  split; [exact H|].
  apply (access_leaves_other_cells linux_x86_64 (per_thread net) os_no_ns 78
           (per_thread net) 77 sample_resolved_world H).
Defined.

(** X5. The cache of a per-thread kind is not shared: whatever thread [t1]
    resolved, a thread [t2] whose own copy is unresolved makes a lookup of
    its own, with its own system calls, and gets what that lookup finds;
    the copy of [t1] is not touched by it. *)
Theorem per_thread_cache_not_shared pf ns os1 os2 t1 t2 w :
  t1 <> t2 ->
  cache_value (per_thread ns) t2 w = 0 ->
  exists v1 w1 v2 w2,
    resolve (provider_of pf (per_thread ns)) os1 t1 w = (v1, w1) /\
    resolve (provider_of pf (per_thread ns)) os2 t2 w1 = (v2, w2) /\
    syscalls w2 =
      syscalls w1 ++ map (pair t2) (probed_paths pf os2 (per_thread ns) t2) /\
    v2 = lookup_value pf os2 (per_thread ns) t2 /\
    cache_value (per_thread ns) t1 w2 = cache_value (per_thread ns) t1 w1.
Proof.
  intros Hne Hmiss2.
  destruct (resolve (provider_of pf (per_thread ns)) os1 t1 w) as [v1 w1] eqn:E1.
  assert (cache_value (per_thread ns) t2 w1 = 0) as Hmiss2'.
  { destruct (decide (cache_value (per_thread ns) t1 w = 0)) as [Hm|Hh].
    - destruct (resolve_miss_facts pf (per_thread ns) os1 t1 w Hm)
        as (v & w' & E & _ & _ & _ & _ & Hframe).
      rewrite E1 in E. injection E as <- <-.
      rewrite Hframe; [done|]. right. by split.
    - rewrite resolve_hit in E1 by done. by injection E1 as <- <-. }
  destruct (resolve_miss_facts pf (per_thread ns) os2 t2 w1 Hmiss2')
    as (v2 & w2 & E2 & Hv2 & Hsys & _ & _ & Hframe).
  exists v1, w1, v2, w2. repeat split; try done.
  apply Hframe. right. split; [done|]. by intros ->.
Qed.

Lemma per_thread_cache_not_shared_witness :
  77 <> 78 /\
  cache_value (per_thread net) 78 initial_world = 0 /\
  exists v1 w1 v2 w2,
    resolve (provider_of linux_x86_64 (per_thread net)) os_modern 77
      initial_world = (v1, w1) /\
    resolve (provider_of linux_x86_64 (per_thread net)) os_legacy 78 w1
      = (v2, w2) /\
    syscalls w2 =
      syscalls w1 ++
      map (pair 78) (probed_paths linux_x86_64 os_legacy (per_thread net) 78) /\
    v2 = lookup_value linux_x86_64 os_legacy (per_thread net) 78 /\
    cache_value (per_thread net) 77 w2 = cache_value (per_thread net) 77 w1.
Proof.
  split; [lia|]. split; [reflexivity|].
  apply (per_thread_cache_not_shared linux_x86_64 net os_modern os_legacy 77 78
           initial_world); [lia|reflexivity].
Defined.

(** ** Order of the probes *)

(** The fallback path is there unless [snprintf] reports an error; it is
    the text written for the calling thread, cut to the size of the
    buffer. *)
Lemma fallback_path_eq pf os ns t :
  fallback_path pf os ns t =
    if os_snprintf_fails os then None
    else Some (String.substring 0 (Z.to_nat (LTTNG_PROC_NS_PATH_MAX pf - 1))
                 ("/proc/self/task/" +:+ pretty t +:+ "/ns/" +:+ proc_name ns)).
Proof.
  unfold fallback_path, snprintf. destruct (os_snprintf_fails os); [done|].
  cbv zeta.
  destruct (Z.of_nat _ <? 0) eqn:Hn; [apply Z.ltb_lt in Hn; lia|done].
Qed.

(** X6. On a miss of a per-thread kind the probes go in a fixed order.
    When the path under /proc/thread-self answers, it is the only system
    call and its inode is the value. When it fails and [snprintf] reports
    an error, nothing more is probed and the value is 0. When it fails and
    the path could be written, that path, made of the identifier of the
    calling thread, is probed second and decides the value. *)
Theorem per_thread_probe_order pf ns os t w :
  cache_value (per_thread ns) t w = 0 ->
  exists v w',
    resolve (provider_of pf (per_thread ns)) os t w = (v, w') /\
    (forall ino,
       os_stat os t ("/proc/thread-self/ns/" +:+ proc_name ns) = Some ino ->
       v = to_uint ino /\
       syscalls w' =
         syscalls w ++ [(t, "/proc/thread-self/ns/" +:+ proc_name ns)]) /\
    (os_stat os t ("/proc/thread-self/ns/" +:+ proc_name ns) = None ->
     os_snprintf_fails os = true ->
     v = 0 /\
     syscalls w' =
       syscalls w ++ [(t, "/proc/thread-self/ns/" +:+ proc_name ns)]) /\
    (os_stat os t ("/proc/thread-self/ns/" +:+ proc_name ns) = None ->
     os_snprintf_fails os = false ->
     let path :=
       String.substring 0 (Z.to_nat (LTTNG_PROC_NS_PATH_MAX pf - 1))
         ("/proc/self/task/" +:+ pretty t +:+ "/ns/" +:+ proc_name ns) in
     v = match os_stat os t path with
         | Some ino => to_uint ino
         | None => 0
         end /\
     syscalls w' =
       syscalls w ++ [(t, "/proc/thread-self/ns/" +:+ proc_name ns); (t, path)]).
Proof.
  intros Hmiss.
  destruct (resolve_miss_facts pf (per_thread ns) os t w Hmiss)
    as (v & w' & E & Hv & Hsys & _).
  exists v, w'. split; [done|].
  unfold lookup_identity, probed_paths in Hv, Hsys.
  change (primary_path (per_thread ns))
    with ("/proc/thread-self/ns/" +:+ proc_name ns) in Hv, Hsys.
  split; [|split].
  - intros ino Hp. rewrite Hp in Hv, Hsys. by split.
  - intros Hp Hf. rewrite Hp in Hv, Hsys.
    rewrite (fallback_path_eq pf os ns t), Hf in Hv, Hsys. by split.
  - intros Hp Hf path. rewrite Hp in Hv, Hsys.
    rewrite (fallback_path_eq pf os ns t), Hf in Hv, Hsys. by split.
Qed.

Lemma per_thread_probe_order_witness :
  cache_value (per_thread cgroup) 1234 initial_world = 0 /\
  exists v w',
    resolve (provider_of linux_x86_64 (per_thread cgroup)) os_legacy 1234
      initial_world = (v, w') /\
    (forall ino,
       os_stat os_legacy 1234 ("/proc/thread-self/ns/" +:+ proc_name cgroup)
         = Some ino ->
       v = to_uint ino /\
       syscalls w' =
         syscalls initial_world ++
         [(1234, "/proc/thread-self/ns/" +:+ proc_name cgroup)]) /\
    (os_stat os_legacy 1234 ("/proc/thread-self/ns/" +:+ proc_name cgroup)
       = None ->
     os_snprintf_fails os_legacy = true ->
     v = 0 /\
     syscalls w' =
       syscalls initial_world ++
       [(1234, "/proc/thread-self/ns/" +:+ proc_name cgroup)]) /\
    (os_stat os_legacy 1234 ("/proc/thread-self/ns/" +:+ proc_name cgroup)
       = None ->
     os_snprintf_fails os_legacy = false ->
     let path :=
       String.substring 0 (Z.to_nat (LTTNG_PROC_NS_PATH_MAX linux_x86_64 - 1))
         ("/proc/self/task/" +:+ pretty 1234 +:+ "/ns/" +:+ proc_name cgroup) in
     v = match os_stat os_legacy 1234 path with
         | Some ino => to_uint ino
         | None => 0
         end /\
     syscalls w' =
       syscalls initial_world ++
       [(1234, "/proc/thread-self/ns/" +:+ proc_name cgroup); (1234, path)]).
Proof.
  split; [reflexivity|].
  apply (per_thread_probe_order linux_x86_64 cgroup os_legacy 1234 initial_world).
  reflexivity.
Defined.

(** ** get_value and record under one environment *)

Lemma resolve_twice_same_value pf k os t w :
  exists v w1 w2,
    resolve (provider_of pf k) os t w = (v, w1) /\
    resolve (provider_of pf k) os t w1 = (v, w2) /\
    (v <> 0 -> w2 = w1).
Proof.
  destruct (decide (cache_value k t w = 0)) as [Hmiss|Hhit].
  - destruct (resolve_miss_facts pf k os t w Hmiss)
      as (v & w1 & E & Hv & _ & Hc & _).
    destruct (decide (v = 0)) as [Hz|Hnz].
    + rewrite Hz in Hc.
      destruct (resolve_miss_facts pf k os t w1 Hc)
        as (v2 & w2 & E2 & Hv2 & _).
      exists v, w1, w2. rewrite E, E2, Hv2, <- Hv. by repeat split.
    + exists v, w1, w1. split; [done|]. rewrite <- Hc in Hnz.
      rewrite (resolve_hit pf k os t w1 Hnz), Hc. by split.
  - exists (cache_value k t w), w, w. by rewrite resolve_hit.
Qed.

(** X7. Under one environment, [get_value] and [record] called one after
    the other by a thread agree, in either order and whether or not the
    value could be resolved: [record] serializes the value [get_value]
    returned, and [get_value] returns the value [record] serialized. *)
Theorem read_and_record_agree pf k os t ctx w :
  (exists v w1 w2,
     read (provider_of pf k) os t w = ({| s64 := v |}, w1) /\
     record_op (provider_of pf k) os t ctx w1 = (sink_put pf ctx v, w2)) /\
  (exists v w1 w2,
     record_op (provider_of pf k) os t ctx w = (sink_put pf ctx v, w1) /\
     read (provider_of pf k) os t w1 = ({| s64 := v |}, w2)).
Proof.
  destruct (resolve_twice_same_value pf k os t w) as (v & w1 & w2 & E1 & E2 & _).
  split; exists v, w1, w2.
  - by rewrite read_resolve, E1, record_resolve, E2.
  - by rewrite record_resolve, E1, read_resolve, E2.
Qed.

(** ** Sizes and cursors *)

Lemma platform_ok_align_divides pf :
  platform_ok pf = true ->
  (lttng_alignof_uint pf | 4) /\ (lttng_alignof_uint pf | 2 ^ size_t_bits pf).
Proof.
  intros Hpf. unfold platform_ok in Hpf.
  rewrite andb_true_iff, !orb_true_iff, !Z.eqb_eq, Z.leb_le in Hpf.
  destruct Hpf as [Ha Hb].
  assert ((4 | 2 ^ size_t_bits pf)) as H4.
  { exists (2 ^ (size_t_bits pf - 2)).
    replace (size_t_bits pf) with ((size_t_bits pf - 2) + 2) at 1 by lia.
    rewrite Z.pow_add_r by lia. done. }
  assert ((lttng_alignof_uint pf | 4)) as Ha4.
  { destruct Ha as [[->| ->]| ->]; [by exists 4|by exists 2|by exists 1]. }
  split; [done|]. by apply (Z.divide_trans _ 4).
Qed.

Lemma lib_ring_buffer_align_aligned x a :
  0 < a -> (a | x) -> lib_ring_buffer_align x a = 0.
Proof.
  intros Ha Hd. unfold lib_ring_buffer_align.
  apply Z.mod_divide in Hd; [|lia].
  rewrite Hd, Z.sub_0_r. apply Z_mod_same_full.
Qed.

Lemma to_size_t_divide pf a x :
  (a | 2 ^ size_t_bits pf) -> (a | x) -> (a | to_size_t pf x).
Proof.
  intros HN Hx. unfold to_size_t.
  destruct (decide (2 ^ size_t_bits pf = 0)) as [E|E].
  - rewrite E. by rewrite Z.mod_0_r.
  - rewrite Z.mod_eq by done. apply Z.divide_sub_r; [done|].
    by apply Z.divide_mul_l.
Qed.

(** X8. [get_size] never answers less than 4 nor more than the alignment
    plus 3; it answers 4 exactly at the offsets that are multiples of the
    alignment, and the offset it leads to is again a multiple of it. *)
Theorem compute_size_bounds pf k offset w :
  platform_ok pf = true ->
  exists sz,
    compute_size (provider_of pf k) offset w = (sz, w) /\
    4 <= sz <= lttng_alignof_uint pf + 3 /\
    (sz = 4 <-> (lttng_alignof_uint pf | offset)) /\
    (lttng_alignof_uint pf | offset + sz).
Proof.
  intros Hpf. pose proof (platform_ok_align pf Hpf) as Ha.
  destruct (platform_ok_align_divides pf Hpf) as [Ha4 _].
  destruct (lib_ring_buffer_align_spec offset (lttng_alignof_uint pf))
    as [Hp Hd]; [lia|].
  exists (lib_ring_buffer_align offset (lttng_alignof_uint pf) + sizeof_uint).
  split; [by apply compute_size_eq|]. unfold sizeof_uint.
  split; [lia|]. split.
  - split.
    + intros E.
      assert (lib_ring_buffer_align offset (lttng_alignof_uint pf) = 0) as E0
        by lia.
      rewrite E0, Z.add_0_r in Hd. done.
    + intros Hdiv. rewrite lib_ring_buffer_align_aligned; [done|lia|done].
  - rewrite Z.add_assoc. by apply Z.divide_add_r.
Qed.

Lemma compute_size_bounds_witness :
  platform_ok linux_ppc32 = true /\
  exists sz,
    compute_size (provider_of linux_ppc32 pid) 6 initial_world
      = (sz, initial_world) /\
    4 <= sz <= lttng_alignof_uint linux_ppc32 + 3 /\
    (sz = 4 <-> (lttng_alignof_uint linux_ppc32 | 6)) /\
    (lttng_alignof_uint linux_ppc32 | 6 + sz).
Proof.
  split; [reflexivity|].
  apply (compute_size_bounds linux_ppc32 pid 6 initial_world). reflexivity.
Defined.

(** X9. [record] leaves the cursor of the sink on a multiple of the
    alignment, so a field of any of the six kinds recorded next needs no
    padding: [get_size] at that cursor is 4. *)
Theorem record_leaves_cursor_aligned pf k os t ctx w k' :
  platform_ok pf = true ->
  (lttng_alignof_uint pf
   | buf_offset (fst (record_op (provider_of pf k) os t ctx w))) /\
  forall w',
    compute_size (provider_of pf k')
      (buf_offset (fst (record_op (provider_of pf k) os t ctx w))) w'
      = (4, w').
Proof.
  intros Hpf. pose proof (platform_ok_align pf Hpf) as Ha.
  destruct (platform_ok_align_divides pf Hpf) as [Ha4 HaN].
  rewrite record_resolve.
  destruct (resolve (provider_of pf k) os t w) as [v w1]. simpl.
  destruct (lib_ring_buffer_align_spec (buf_offset ctx) (lttng_alignof_uint pf))
    as [Hp Hd]; [lia|].
  assert ((lttng_alignof_uint pf | buf_offset (sink_put pf ctx v))) as Hal.
  { rewrite sink_put_offset. apply to_size_t_divide; [done|].
    rewrite Z.add_assoc. by apply Z.divide_add_r. }
  split; [done|]. intros w'.
  rewrite compute_size_eq by done.
  rewrite lib_ring_buffer_align_aligned; [done|lia|done].
Qed.

Lemma record_leaves_cursor_aligned_witness :
  platform_ok linux_ppc32 = true /\
  (lttng_alignof_uint linux_ppc32
   | buf_offset
       (fst (record_op (provider_of linux_ppc32 (per_thread mnt)) os_modern 77
               {| buf_offset := 9; buf_data := ∅ |} initial_world))) /\
  forall w',
    compute_size (provider_of linux_ppc32 pid)
      (buf_offset
         (fst (record_op (provider_of linux_ppc32 (per_thread mnt)) os_modern 77
                 {| buf_offset := 9; buf_data := ∅ |} initial_world))) w'
      = (4, w').
Proof.
  split; [reflexivity|].
  apply (record_leaves_cursor_aligned linux_ppc32 (per_thread mnt) os_modern 77
           {| buf_offset := 9; buf_data := ∅ |} initial_world pid).
  reflexivity.
Defined.

(** X10. The two passes of an event commit agree over any list of these
    fields: the offset that the sizes add up to, each [get_size] asked at
    the offset reached so far, is the cursor the sink has after the fields
    were recorded in the same order; the size pass changes no state. *)
Theorem size_pass_and_record_pass_agree pf os t ks ctx w :
  platform_ok pf = true ->
  exists ctx' w',
    record_pass pf os t ks ctx w = (ctx', w') /\
    get_size_pass pf ks (buf_offset ctx) w = (buf_offset ctx', w).
Proof.
  intros Hpf. revert ctx w. induction ks as [|k ks IH]; intros ctx w.
  - by exists ctx, w.
  - simpl. unfold_M. rewrite record_resolve, compute_size_eq by done.
    destruct (resolve (provider_of pf k) os t w) as [v w1].
    destruct (IH (sink_put pf ctx v) w1) as (ctx' & w' & Er & Es).
    exists ctx', w'. split; [done|].
    rewrite sink_put_offset in Es.
    destruct (get_size_pass pf ks _ w1) as [o w1'] eqn:E1.
    injection Es as -> ->.
    assert (forall ks' o' wa wb,
      fst (get_size_pass pf ks' o' wa) = fst (get_size_pass pf ks' o' wb) /\
      snd (get_size_pass pf ks' o' wa) = wa) as Hpure.
    { induction ks' as [|k' ks' IH']; intros o' wa wb; [done|].
      simpl. unfold_M. rewrite !compute_size_eq by done. apply IH'. }
    destruct (Hpure ks
      (to_size_t pf
         (buf_offset ctx
          + (lib_ring_buffer_align (buf_offset ctx) (lttng_alignof_uint pf)
             + sizeof_uint))) w w1) as [Hf Hs].
    rewrite E1 in Hf. simpl in Hf.
    destruct (get_size_pass pf ks _ w) as [o2 w2]. simpl in *.
    by subst.
Qed.

Lemma size_pass_and_record_pass_agree_witness :
  platform_ok linux_ppc32 = true /\
  exists ctx' w',
    record_pass linux_ppc32 os_modern 77 [pid; per_thread net; per_thread ipc]
      {| buf_offset := 3; buf_data := ∅ |} initial_world = (ctx', w') /\
    get_size_pass linux_ppc32 [pid; per_thread net; per_thread ipc]
      (buf_offset {| buf_offset := 3; buf_data := ∅ |}) initial_world
      = (buf_offset ctx', initial_world).
Proof.
  split; [reflexivity|].
  apply (size_pass_and_record_pass_agree linux_ppc32 os_modern 77
           [pid; per_thread net; per_thread ipc]
           {| buf_offset := 3; buf_data := ∅ |} initial_world).
  reflexivity.
Defined.

(** ** Runs of calls *)

Lemma resolve_cells_uint pf k os t w :
  cells_uint w -> cells_uint (snd (resolve (provider_of pf k) os t w)).
Proof.
  intros Hw. destruct (decide (cache_value k t w = 0)) as [E|E].
  - rewrite resolve_miss by done. simpl.
    destruct (lookup_identity pf os k t); simpl.
    + apply cells_uint_set_cache; [by apply cells_uint_log|apply to_uint_range].
    + by apply cells_uint_log.
  - by rewrite resolve_hit.
Qed.

Lemma run_op_cells_uint pf o w : cells_uint w -> cells_uint (run_op pf o w).
Proof.
  intros Hw. destruct o as [k os t|k os t|k os t ctx|k off|k t|k t]; simpl.
  - by apply resolve_cells_uint.
  - rewrite read_resolve.
    pose proof (resolve_cells_uint pf k os t w Hw) as H.
    by destruct (resolve (provider_of pf k) os t w).
  - rewrite record_resolve.
    pose proof (resolve_cells_uint pf k os t w Hw) as H.
    by destruct (resolve (provider_of pf k) os t w).
  - by rewrite compute_size_pure.
  - destruct (fixup (provider_of pf k)) as [f|] eqn:E; [|done].
    by rewrite (fixup_pure pf k f t w E).
  - rewrite reset_eq. simpl. by apply cells_uint_set_cache.
Qed.

(** X11. The caches never leave the range of [unsigned int]: if every
    cell is below 2^32 before a run of calls of any kinds by any threads
    (resets included), every cell is below 2^32 after it, and what
    [get_value] then puts in the signed 64-bit slot lies in 0 .. 2^32-1,
    whatever inode the kernel reports. *)
Theorem run_keeps_caches_unsigned pf ops w :
  wf_world w = true ->
  wf_world (run_ops pf ops w) = true /\
  forall k os t,
    0 <= s64 (fst (read (provider_of pf k) os t (run_ops pf ops w))) < 2 ^ 32.
Proof.
  intros Hw. apply wf_world_spec in Hw.
  assert (cells_uint (run_ops pf ops w)) as Hinv.
  { induction ops as [|o ops IH] using rev_ind; [done|].
    rewrite run_ops_snoc. by apply run_op_cells_uint. }
  split; [by apply wf_world_spec|]. intros k os t.
  set (w1 := run_ops pf ops w) in *. rewrite read_resolve.
  destruct (decide (cache_value k t w1 = 0)) as [E|E].
  - rewrite resolve_miss by done. simpl.
    destruct (lookup_identity pf os k t); simpl; [apply to_uint_range|done].
  - rewrite resolve_hit by done. simpl.
    destruct Hinv as [Hp Ht]. destruct k; [apply Hp|apply Ht].
Qed.

Lemma run_keeps_caches_unsigned_witness :
  wf_world initial_world = true /\
  wf_world (run_ops linux_x86_64 sample_ops initial_world) = true /\
  forall k os t,
    0 <= s64 (fst (read (provider_of linux_x86_64 k) os t
                     (run_ops linux_x86_64 sample_ops initial_world)))
      < 2 ^ 32.
Proof.
  split; [reflexivity|].
  apply (run_keeps_caches_unsigned linux_x86_64 sample_ops initial_world).
  reflexivity.
Defined.

Lemma run_op_syscalls pf o w :
  exists l,
    syscalls (run_op pf o w) = syscalls w ++ l /\
    (length l <= if accesses o then 2 else 0)%nat.
Proof.
  assert (forall k os t,
    exists l, syscalls (snd (resolve (provider_of pf k) os t w)) = syscalls w ++ l
              /\ (length l <= 2)%nat) as Hres.
  { intros k os t. destruct (decide (cache_value k t w = 0)) as [E|E].
    - destruct (resolve_miss_facts pf k os t w E) as (v & w1 & -> & _ & Hs & _).
      exists (map (pair t) (probed_paths pf os k t)). split; [done|].
      rewrite length_map. destruct (probed_paths_length pf os k t); lia.
    - exists []. rewrite resolve_hit by done. simpl.
      split; [by rewrite app_nil_r|lia]. }
  destruct o as [k os t|k os t|k os t ctx|k off|k t|k t]; simpl.
  - apply Hres.
  - rewrite read_resolve. destruct (Hres k os t) as (l & Hl & Hn).
    exists l. by destruct (resolve (provider_of pf k) os t w).
  - rewrite record_resolve. destruct (Hres k os t) as (l & Hl & Hn).
    exists l. by destruct (resolve (provider_of pf k) os t w).
  - exists []. rewrite compute_size_pure. by rewrite app_nil_r.
  - exists []. rewrite app_nil_r. split; [|done].
    destruct (fixup (provider_of pf k)) as [f|] eqn:E; [|done].
    by rewrite (fixup_pure pf k f t w E).
  - exists []. rewrite reset_eq. simpl.
    by rewrite syscalls_set_cache, app_nil_r.
Qed.

(** X12. A run of calls only adds to the system calls already made, and
    adds at most two for each call of resolve, [get_value] or [record] in
    it; [get_size], the fixups and the resets make none. *)
Theorem run_syscalls_bounded pf ops w :
  exists l,
    syscalls (run_ops pf ops w) = syscalls w ++ l /\
    (length l <= 2 * length (filter (λ o, accesses o = true) ops))%nat.
Proof.
  induction ops as [|o ops IH] using rev_ind.
  - exists []. by rewrite app_nil_r.
  - destruct IH as (l & Hl & Hn). rewrite run_ops_snoc.
    destruct (run_op_syscalls pf o (run_ops pf ops w)) as (l' & Hl' & Hn').
    exists (l ++ l'). rewrite Hl', Hl, app_assoc. split; [done|].
    rewrite filter_app, !length_app.
    destruct (accesses o) eqn:Ea.
    + rewrite filter_cons_True by done. simpl. lia.
    + rewrite filter_cons_False by congruence. simpl. lia.
Qed.

(** ** A change of namespace and the reset *)

(** X13. A resolved cache does not follow the environment: once a thread
    has resolved a non-zero value, the same thread keeps getting it, with
    no system call, even when a lookup would now find another inode; after
    [reset] the next call makes that lookup and returns what it finds. *)
Theorem change_is_seen_only_after_reset pf k os1 os2 t w :
  cache_value k t w = 0 ->
  lookup_value pf os1 k t <> 0 ->
  exists w1 w2 w3,
    resolve (provider_of pf k) os1 t w = (lookup_value pf os1 k t, w1) /\
    resolve (provider_of pf k) os2 t w1 = (lookup_value pf os1 k t, w1) /\
    reset (provider_of pf k) t w1 = (tt, w2) /\
    resolve (provider_of pf k) os2 t w2 = (lookup_value pf os2 k t, w3) /\
    cache_value k t w3 = lookup_value pf os2 k t.
Proof.
  intros Hmiss Hnz.
  destruct (resolve_miss_facts pf k os1 t w Hmiss)
    as (v & w1 & E1 & Hv & _ & Hc & _).
  fold (lookup_value pf os1 k t) in Hv. subst v.
  assert (cache_value k t (set_cache k t 0 w1) = 0) as Hmiss2
    by apply cache_value_set_same.
  destruct (resolve_miss_facts pf k os2 t _ Hmiss2)
    as (v3 & w3 & E3 & Hv3 & _ & Hc3 & _).
  fold (lookup_value pf os2 k t) in Hv3. subst v3.
  exists w1, (set_cache k t 0 w1), w3.
  split; [done|]. split.
  { rewrite resolve_hit; by rewrite Hc. }
  split; [apply reset_eq|]. by split.
Qed.

Lemma change_is_seen_only_after_reset_witness :
  cache_value (per_thread net) 77 initial_world = 0 /\
  lookup_value linux_x86_64 os_modern (per_thread net) 77 <> 0 /\
  exists w1 w2 w3,
    resolve (provider_of linux_x86_64 (per_thread net)) os_modern 77
      initial_world
      = (lookup_value linux_x86_64 os_modern (per_thread net) 77, w1) /\
    resolve (provider_of linux_x86_64 (per_thread net)) os_legacy 77 w1
      = (lookup_value linux_x86_64 os_modern (per_thread net) 77, w1) /\
    reset (provider_of linux_x86_64 (per_thread net)) 77 w1 = (tt, w2) /\
    resolve (provider_of linux_x86_64 (per_thread net)) os_legacy 77 w2
      = (lookup_value linux_x86_64 os_legacy (per_thread net) 77, w3) /\
    cache_value (per_thread net) 77 w3
      = lookup_value linux_x86_64 os_legacy (per_thread net) 77.
Proof.
  assert (lookup_value linux_x86_64 os_modern (per_thread net) 77 <> 0) as H
    by (vm_compute; discriminate).
  split; [reflexivity|]. split; [exact H|].
  apply (change_is_seen_only_after_reset linux_x86_64 (per_thread net)
           os_modern os_legacy 77 initial_world); [reflexivity|exact H].
Defined.
